(** * iochain: stacks of io.Writer / io.Reader layers

    A shallow embedding of the Go package [iochain] (stackwriter.go and
    multireader.go) and the properties of its attach / write / read /
    flush / close protocol.

    Modelling choices.
    - A Go interface value is a method table; the mutable state behind the
      object lives in an abstract heap [W], and every method is a function
      on that heap.  [nil] interface values are [None].
    - An optional capability (the dynamic type implements [Flusher] or
      [io.Closer]) is an [option] field: the type assertion
      [x.(Flusher)] succeeds exactly when the field is [Some].
    - The stack object, the heap and a ghost log of the method calls the
      stack performs on its layers are threaded through a state monad
      whose computations either return or panic.
    - The mutex [mu] guards every public method for its whole duration;
      in this sequential model a method is one atomic computation.  A
      layer method cannot re-enter the stack ([sync.Mutex] is not
      reentrant), so it acts on the heap only; layer methods are taken to
      return. *)

From Stdlib Require Import ZArith Lia.
From stdpp Require Import base option list strings.

Open Scope Z_scope.

(** ** Go runtime fragments *)

Definition byte := Byte.byte.

(** Go [error] values.  A nil [error] is [None : option error]. *)
Inductive error : Type :=
| errors_New (text : string)
| io_ErrClosedPipe
| io_EOF
| layer_error (code : nat).

(** Run-time panics raised by the Go runtime. *)
Inductive panic : Type :=
| index_out_of_range (i : Z) (len : nat).

Inductive outcome (A : Type) : Type :=
| Returns (a : A)
| Panics (p : panic).
Arguments Returns {A} a.
Arguments Panics {A} p.

(** State monad with panics: the state at a panic is the state reached
    when the panic was raised. *)
Definition M (S A : Type) : Type := S -> outcome A * S.

Definition ret {S A} (a : A) : M S A := fun s => (Returns a, s).

Definition bind {S A B} (c : M S A) (k : A -> M S B) : M S B :=
  fun s => match c s with
           | (Returns a, s') => k a s'
           | (Panics p, s') => (Panics p, s')
           end.

Definition throw {S A} (p : panic) : M S A := fun s => (Panics p, s).

#[global] Instance M_ret {S} : MRet (M S) := @ret S.
#[global] Instance M_bind {S} : MBind (M S) := fun A B k c => bind c k.

(** [s[i]] on a slice, with the runtime's bounds check. *)
Definition slice_index {S L} (s : list L) (i : Z) : M S L :=
  if (0 <=? i) && (i <? Z.of_nat (length s)) then
    match s !! Z.to_nat i with
    | Some x => ret x
    | None => throw (index_out_of_range i (length s))
    end
  else throw (index_out_of_range i (length s)).

(** [err != nil && firstErr == nil] then [firstErr = err]. *)
Definition keep_first (firstErr err : option error) : option error :=
  match err, firstErr with
  | Some e, None => Some e
  | _, _ => firstErr
  end.

(** ** Layers *)

Section Layers.
Variable W : Type.

(** A method returning only [error]. *)
Definition err_method : Type := W -> option error * W.

(** [io.Writer], together with the optional method sets of its dynamic
    type. *)
Record Writer : Type := mkWriter {
  Writer_Write : list byte -> W -> (Z * option error) * W;
  Writer_Flusher : option err_method;
  Writer_Closer : option err_method
}.

(** [ResettableWriter]: an [io.Writer] with [Reset(w io.Writer)]. *)
Record ResettableWriter : Type := mkResettableWriter {
  rw_Writer : Writer;
  rw_Reset : Writer -> W -> W
}.

(** [io.Reader].  [Read(p)] gets the current contents of [p] and
    returns its new contents with [(n, err)]. *)
Record Reader : Type := mkReader {
  Reader_Read : list byte -> W -> (list byte * Z * option error) * W;
  Reader_Closer : option err_method
}.

(** [ResettableReader]: an [io.Reader] with [Reset(r io.Reader) error]. *)
Record ResettableReader : Type := mkResettableReader {
  rr_Reader : Reader;
  rr_Reset : Reader -> W -> option error * W
}.

(** Ghost log: the method calls a stack performs on its layers. *)
Inductive Event : Type :=
| CallWrite (w : Writer) (p : list byte)
| CallWReset (w : ResettableWriter) (prev : Writer)
| CallFlush (w : Writer)
| CallWClose (w : Writer)
| CallRead (r : Reader) (p : list byte)
| CallRReset (r : ResettableReader) (prev : Reader)
| CallRClose (r : Reader).

(** The receiver [m], the heap behind the layers, and the log. *)
Record State (Self : Type) : Type := mkState {
  self : Self;
  heap : W;
  log : list Event
}.
Arguments mkState {Self}.
Arguments self {Self}.
Arguments heap {Self}.
Arguments log {Self}.

Section Receiver.
Context {Self : Type}.

Definition get_self : M (State Self) Self :=
  fun st => (Returns (self st), st).

Definition set_self (m : Self) : M (State Self) unit :=
  fun st => (Returns tt, mkState m (heap st) (log st)).

(** A method call on a layer: logged, then run on the heap. *)
Definition call {R} (ev : Event) (f : W -> R * W) : M (State Self) R :=
  fun st => let (r, h) := f (heap st) in
            (Returns r, mkState (self st) h (log st ++ [ev])).

(** The sweep that [Flush], both [Close] methods and [FlushAndClose]
    spell out:
<<
    for i := len(layers) - 1; i >= 0; i-- {
      if c, ok := layers[i].(Cap); ok {
        if err := c.Method(); err != nil && firstErr == nil {
          firstErr = err
        }
      }
    }
>>
    [sweep n] runs the iterations [i = n-1, ..., 0]. *)
Fixpoint sweep {L} (layers : Self -> list L) (cap : L -> option err_method)
    (ev : L -> Event) (n : nat) (firstErr : option error)
    : M (State Self) (option error) :=
  match n with
  | O => ret firstErr
  | S i =>
      m ← get_self;
      x ← slice_index (layers m) (Z.of_nat i);
      match cap x with
      | Some method =>
          err ← call (ev x) method;
          sweep layers cap ev i (keep_first firstErr err)
      | None => sweep layers cap ev i firstErr
      end
  end.
End Receiver.
End Layers.

Arguments mkWriter {W}.
Arguments Writer_Write {W}.
Arguments Writer_Flusher {W}.
Arguments Writer_Closer {W}.
Arguments mkResettableWriter {W}.
Arguments rw_Writer {W}.
Arguments rw_Reset {W}.
Arguments mkReader {W}.
Arguments Reader_Read {W}.
Arguments Reader_Closer {W}.
Arguments mkResettableReader {W}.
Arguments rr_Reader {W}.
Arguments rr_Reset {W}.
Arguments CallWrite {W}.
Arguments CallWReset {W}.
Arguments CallFlush {W}.
Arguments CallWClose {W}.
Arguments CallRead {W}.
Arguments CallRReset {W}.
Arguments CallRClose {W}.
Arguments mkState {W Self}.
Arguments self {W Self}.
Arguments heap {W Self}.
Arguments log {W Self}.
Arguments get_self {W Self}.
Arguments set_self {W Self}.
Arguments call {W Self R}.
Arguments sweep {W Self L}.

(** ** stackwriter.go *)

Module StackWriter.
Section Defs.
Variable W : Type.

(** [type StackWriter struct { mu; base; writers }], writers from base
    to top. *)
Record t : Type := mk {
  base : Writer W;
  writers : list (Writer W)
}.

Definition St : Type := State W t.

Definition NewStackWriter (b : option (Writer W)) : option t * option error :=
  match b with
  | None => (None, Some (errors_New "base writer cannot be nil"))
  | Some b => (Some (mk b [b]), None)
  end.

Definition AddWriter (w : option (ResettableWriter W)) : M St (option error) :=
  match w with
  | None => ret (Some (errors_New "writer cannot be nil"))
  | Some w =>
      m ← get_self;
      prev ← slice_index (writers m) (Z.of_nat (length (writers m)) - 1);
      call (CallWReset w prev) (fun h => (tt, rw_Reset w prev h));;
      m ← get_self;
      set_self (mk (base m) (writers m ++ [rw_Writer w]));;
      ret None
  end.

Definition Write (p : list byte) : M St (Z * option error) :=
  m ← get_self;
  if decide (length (writers m) = 0%nat) then ret (0, Some io_ErrClosedPipe)
  else
    top ← slice_index (writers m) (Z.of_nat (length (writers m)) - 1);
    call (CallWrite top p) (Writer_Write top p).

Definition Flush : M St (option error) :=
  m ← get_self;
  sweep writers Writer_Flusher CallFlush (length (writers m)) None.

Definition Close : M St (option error) :=
  m ← get_self;
  firstErr ← sweep writers Writer_Closer CallWClose (length (writers m)) None;
  m ← get_self;
  set_self (mk (base m) []);;
  ret firstErr.

Definition FlushAndClose : M St (option error) :=
  m ← get_self;
  firstErr ← sweep writers Writer_Flusher CallFlush (length (writers m)) None;
  m ← get_self;
  firstErr ← sweep writers Writer_Closer CallWClose (length (writers m)) firstErr;
  m ← get_self;
  set_self (mk (base m) []);;
  ret firstErr.
End Defs.
Arguments mk {W}.
Arguments base {W}.
Arguments writers {W}.
Arguments NewStackWriter {W}.
Arguments AddWriter {W}.
Arguments Write {W}.
Arguments Flush {W}.
Arguments Close {W}.
Arguments FlushAndClose {W}.
End StackWriter.

(** ** multireader.go *)

Module MultiReader.
Section Defs.
Variable W : Type.

(** [type MultiReader struct { mu; readers }], readers from base to top. *)
Record t : Type := mk {
  readers : list (Reader W)
}.

Definition St : Type := State W t.

Definition NewReader (b : option (Reader W)) : option t * option error :=
  match b with
  | None => (None, Some (errors_New "base reader cannot be nil"))
  | Some b => (Some (mk [b]), None)
  end.

Definition AddReader (r : option (ResettableReader W)) : M St (option error) :=
  match r with
  | None => ret (Some (errors_New "reader cannot be nil"))
  | Some r =>
      m ← get_self;
      prev ← slice_index (readers m) (Z.of_nat (length (readers m)) - 1);
      err ← call (CallRReset r prev) (rr_Reset r prev);
      match err with
      | Some e => ret (Some e)
      | None =>
          m ← get_self;
          set_self (mk (readers m ++ [rr_Reader r]));;
          ret None
      end
  end.

(** [Read(p)] returns the new contents of [p] with [(n, err)]. *)
Definition Read (p : list byte) : M St (list byte * Z * option error) :=
  m ← get_self;
  if decide (length (readers m) = 0%nat) then ret (p, 0, Some io_EOF)
  else
    top ← slice_index (readers m) (Z.of_nat (length (readers m)) - 1);
    call (CallRead top p) (Reader_Read top p).

Definition Close : M St (option error) :=
  m ← get_self;
  firstErr ← sweep readers Reader_Closer CallRClose (length (readers m)) None;
  m ← get_self;
  set_self (mk []);;
  ret firstErr.
End Defs.
Arguments mk {W}.
Arguments readers {W}.
Arguments NewReader {W}.
Arguments AddReader {W}.
Arguments Read {W}.
Arguments Close {W}.
End MultiReader.


(** ** Reference descriptions used in the statements *)

Section Reference.
Variable W : Type.

(** Invoking the capability [cap] on the layers of [ls] that implement
    it, in list order: the calls made (layer and returned error) and the
    heap they leave. *)
Fixpoint run_caps {L} (cap : L -> option (err_method W)) (ls : list L) (h : W)
    : list (L * option error) * W :=
  match ls with
  | [] => ([], h)
  | x :: ls' =>
      match cap x with
      | Some method =>
          let (e, h1) := method h in
          let (calls, h2) := run_caps cap ls' h1 in
          ((x, e) :: calls, h2)
      | None => run_caps cap ls' h
      end
  end.

(** The layers of [ls] that implement [cap], in list order. *)
Definition implementers {L} (cap : L -> option (err_method W)) (ls : list L)
    : list L :=
  filter (fun x => is_Some (cap x)) ls.

(** The first non-nil error of a list of returned errors. *)
Fixpoint first_error (es : list (option error)) : option error :=
  match es with
  | [] => None
  | Some e :: _ => Some e
  | None :: es' => first_error es'
  end.

(** Reset events of attaching [ls] in order on top of [prev]. *)
Fixpoint wresets (prev : Writer W) (ls : list (ResettableWriter W))
    : list (Event W) :=
  match ls with
  | [] => []
  | l :: ls' => CallWReset l prev :: wresets (rw_Writer l) ls'
  end.

Fixpoint rresets (prev : Reader W) (ls : list (ResettableReader W))
    : list (Event W) :=
  match ls with
  | [] => []
  | l :: ls' => CallRReset l prev :: rresets (rr_Reader l) ls'
  end.

(** The heap after the write-side resets of attaching [ls] on [prev]. *)
Fixpoint wreset_heap (prev : Writer W) (ls : list (ResettableWriter W)) (h : W)
    : W :=
  match ls with
  | [] => h
  | l :: ls' => wreset_heap (rw_Writer l) ls' (rw_Reset l prev h)
  end.

(** Running [f] on each element in order, collecting the results. *)
Fixpoint for_each {S A B} (f : A -> M S B) (l : list A) : M S (list B) :=
  match l with
  | [] => ret []
  | a :: l' => b ← f a; bs ← for_each f l'; ret (b :: bs)
  end.

Definition void {S A} (c : M S A) : M S unit := c;; ret tt.

(** Client calls on a write stack. *)
Inductive wop : Type :=
| WAdd (w : option (ResettableWriter W))
| WWrite (p : list byte)
| WFlush
| WClose
| WFlushAndClose.

Definition wexec (o : wop) : M (StackWriter.St W) unit :=
  match o with
  | WAdd w => void (StackWriter.AddWriter w)
  | WWrite p => void (StackWriter.Write p)
  | WFlush => void StackWriter.Flush
  | WClose => void StackWriter.Close
  | WFlushAndClose => void StackWriter.FlushAndClose
  end.

Definition wcloses (o : wop) : bool :=
  match o with
  | WClose | WFlushAndClose => true
  | _ => false
  end.

(** Client calls on a read stack. *)
Inductive rop : Type :=
| RAdd (r : option (ResettableReader W))
| RRead (p : list byte)
| RClose.

Definition rexec (o : rop) : M (MultiReader.St W) unit :=
  match o with
  | RAdd r => void (MultiReader.AddReader r)
  | RRead p => void (MultiReader.Read p)
  | RClose => void MultiReader.Close
  end.

Definition rcloses (o : rop) : bool :=
  match o with
  | RClose => true
  | _ => false
  end.

(** A client running calls one after the other; a call that panics is
    recovered and the client goes on from the state the panic left. *)
Fixpoint run {S O} (exec : O -> M S unit) (ops : list O) (st : S) : S :=
  match ops with
  | [] => st
  | o :: ops' => run exec ops' (exec o st).2
  end.

(** What one client call may do to the layer sequence: nothing, append one
    layer at the top, or (closing calls only) clear it. *)
Definition step_shape {L} (closing : bool) (before after : list L) : Prop :=
  after = before
  \/ (exists x, after = before ++ [x])
  \/ (closing = true /\ after = []).
End Reference.

Arguments run_caps {W L}.
Arguments implementers {W L}.
Arguments wresets {W}.
Arguments rresets {W}.
Arguments wreset_heap {W}.
Arguments WAdd {W}.
Arguments WWrite {W}.
Arguments WFlush {W}.
Arguments WClose {W}.
Arguments WFlushAndClose {W}.
Arguments step_shape {L}.
Arguments wexec {W}.
Arguments wcloses {W}.
Arguments RAdd {W}.
Arguments RRead {W}.
Arguments RClose {W}.
Arguments rexec {W}.
Arguments rcloses {W}.

(** ** Sample layers over a heap that counts the calls made *)

Module Sample.
Definition sink : Writer nat :=
  mkWriter (fun p h => ((Z.of_nat (length p), None), S h)) None None.

(** A buffering layer whose [Flush] and [Close] fail with [code]. *)
Definition buffer (code : nat) : ResettableWriter nat :=
  mkResettableWriter
    (mkWriter (fun p h => ((Z.of_nat (length p), None), S h))
              (Some (fun h => (Some (layer_error code), S h)))
              (Some (fun h => (Some (layer_error (10 + code)), S h))))
    (fun _ h => S h).

Definition source : Reader nat :=
  mkReader (fun p h => ((p, 0, Some io_EOF), S h)) None.

(** A layer that accepts any source. *)
Definition decoder : ResettableReader nat :=
  mkResettableReader
    (mkReader (fun p h => ((p, 0, Some io_EOF), S h))
              (Some (fun h => (None, S h))))
    (fun _ h => (None, S h)).

(** A layer that rejects its source. *)
Definition picky : ResettableReader nat :=
  mkResettableReader
    (mkReader (fun p h => ((p, 0, Some io_EOF), S h)) None)
    (fun _ h => (Some (layer_error 7), S h)).

(** An open write stack: sink, then two buffering layers. *)
Definition wstack : StackWriter.St nat :=
  mkState (StackWriter.mk sink [sink; rw_Writer (buffer 1); rw_Writer (buffer 2)])
          0%nat [].

(** An open read stack: source, then one decoder. *)
Definition rstack : MultiReader.St nat :=
  mkState (MultiReader.mk [source; rr_Reader decoder]) 0%nat [].

Definition hello : list byte := [Byte.x68; Byte.x69].
End Sample.

(** ** The adapters (PassthroughReader and ReaderToWriter)

    The adapters keep interface values in their fields and call methods
    on them, so a nil field is a run-time fault.  ReaderToWriter
    re-slices the buffer it is given, so there the buffer is a slice
    with its spare capacity. *)

Inductive fault : Type :=
| nil_pointer_dereference
| slice_bounds_out_of_range (n : Z) (cap : nat).

Inductive attempt (A : Type) : Type :=
| Done (a : A)
| Fault (f : fault).
Arguments Done {A} a.
Arguments Fault {A} f.

(** State monad with faults, for the methods of the adapters. *)
Definition F (S A : Type) : Type := S -> attempt A * S.

Definition fret {S A} (a : A) : F S A := fun s => (Done a, s).

Definition fbind {S A B} (c : F S A) (k : A -> F S B) : F S B :=
  fun s => match c s with
           | (Done a, s') => k a s'
           | (Fault f, s') => (Fault f, s')
           end.

Definition fail {S A} (f : fault) : F S A := fun s => (Fault f, s).

#[global] Instance F_ret {S} : MRet (F S) := @fret S.
#[global] Instance F_bind {S} : MBind (F S) := fun A B k c => fbind c k.

(** Calling a method through an interface value that may be nil. *)
Definition deref {S A} (x : option A) : F S A :=
  match x with
  | Some a => fret a
  | None => fail nil_pointer_dereference
  end.

(** A [[]byte] value: the bytes [p[0:len(p)]], and the rest of its
    backing array up to [cap(p)]. *)
Record slice : Type := mkSlice {
  visible : list byte;
  spare : list byte
}.

Definition cap (p : slice) : nat := (length (visible p) + length (spare p))%nat.

(** [p[:n]], with the runtime's bounds check: the bound of a slice
    expression on a slice is its capacity, so [n] may exceed [len(p)]. *)
Definition slice_to {S} (p : slice) (n : Z) : F S (list byte) :=
  if (0 <=? n) && (n <=? Z.of_nat (cap p))
  then fret (take (Z.to_nat n) (visible p ++ spare p))
  else fail (slice_bounds_out_of_range n (cap p)).

Section AdapterOps.
Variable W : Type.
Context {Self : Type}.

Definition this : F (State W Self) Self :=
  fun st => (Done (self st), st).

Definition assign (m : Self) : F (State W Self) unit :=
  fun st => (Done tt, mkState m (heap st) (log st)).

(** A method call on a non-nil interface value: logged, then run. *)
Definition invoke {R} (ev : Event W) (f : W -> R * W) : F (State W Self) R :=
  fun st => let (r, h) := f (heap st) in
            (Done r, mkState (self st) h (log st ++ [ev])).
End AdapterOps.
Arguments this {W Self}.
Arguments assign {W Self}.
Arguments invoke {W Self R}.

Module PassthroughReader.
Section Defs.
Variable W : Type.

(** [type PassthroughReader struct { src io.Reader }] *)
Record t : Type := mk {
  src : option (Reader W)
}.

Definition St : Type := State W t.

Definition NewPasstroughReader (s : option (Reader W)) : t := mk s.

Definition Read (p : list byte) : F St (list byte * Z * option error) :=
  r ← this;
  s ← deref (src r);
  invoke (CallRead s p) (Reader_Read s p).

Definition Close : F St (option error) :=
  r ← this;
  match src r with
  | Some s =>
      match Reader_Closer s with
      | Some close => invoke (CallRClose s) close
      | None => mret None
      end
  | None => mret None
  end.

(** The [io.Reader] interface value holding [NewPasstroughReader(s)] for a
    non-nil [s]: its dynamic type has [Read] and [Close]; the field is
    never assigned again. *)
Definition iface (s : Reader W) : Reader W :=
  mkReader (Reader_Read s)
           (Some (fun h => match Reader_Closer s with
                           | Some close => close h
                           | None => (None, h)
                           end)).
End Defs.
Arguments mk {W}.
Arguments src {W}.
Arguments NewPasstroughReader {W}.
Arguments Read {W}.
Arguments Close {W}.
Arguments iface {W}.
End PassthroughReader.

Module ReaderToWriter.
Section Defs.
Variable W : Type.

(** [type ReaderToWriter struct { src io.Reader; target io.Writer }] *)
Record t : Type := mk {
  src : option (Reader W);
  target : option (Writer W)
}.

Definition St : Type := State W t.

Definition NewReaderToWriter (w : option (Writer W)) : t := mk None w.

(** [Read(p)].  The source sees and rewrites [p[0:len(p)]] and cannot
    change [len(p)]; after its call the slice [p] has the new contents
    [p'] and the spare capacity it had. *)
Definition Read (p : slice) : F St (list byte * Z * option error) :=
  r ← this;
  s ← deref (src r);
  res ← invoke (CallRead s (visible p)) (Reader_Read s (visible p));
  let '(p', n, err) := res in
  if 0 <? n then
    q ← slice_to (mkSlice p' (spare p)) n;
    w ← deref (target r);
    invoke (CallWrite w q) (Writer_Write w q);;
    mret (p', n, err)
  else mret (p', n, err).

Definition Reset (s : option (Reader W)) : F St (option error) :=
  r ← this;
  assign (mk s (target r));;
  mret None.

Definition Close : F St (option error) :=
  r ← this;
  match target r with
  | Some w =>
      match Writer_Closer w with
      | Some close => invoke (CallWClose w) close
      | None => mret None
      end
  | None => mret None
  end.
End Defs.
Arguments mk {W}.
Arguments src {W}.
Arguments target {W}.
Arguments NewReaderToWriter {W}.
Arguments Read {W}.
Arguments Reset {W}.
Arguments Close {W}.
End ReaderToWriter.

(** ** Further reference descriptions *)

Section Reference2.
Variable W : Type.

(** The layers a sequence of client calls attaches to a write stack. *)
Definition layers_added (ops : list (wop W)) : list (Writer W) :=
  omap (fun o => match o with
                 | WAdd (Some w) => Some (rw_Writer w)
                 | _ => None
                 end) ops.

(** Of the layers [rs] offered to a read stack, those whose add returned
    nil. *)
Fixpoint accepted (rs : list (ResettableReader W)) (errs : list (option error))
    : list (ResettableReader W) :=
  match rs, errs with
  | r :: rs', None :: errs' => r :: accepted rs' errs'
  | _ :: rs', Some _ :: errs' => accepted rs' errs'
  | _, _ => []
  end.

(** The reset calls of offering [rs] on top of [prev] when the adds
    returned [errs]: a rejected layer does not become the next source. *)
Fixpoint rresets_given (prev : Reader W) (rs : list (ResettableReader W))
    (errs : list (option error)) : list (Event W) :=
  match rs, errs with
  | r :: rs', e :: errs' =>
      CallRReset r prev
      :: rresets_given (match e with None => rr_Reader r | Some _ => prev end)
                       rs' errs'
  | _, _ => []
  end.

(** The heap after the read-side resets of attaching [rs] on [prev],
    each layer becoming the source of the next. *)
Fixpoint rreset_heap (prev : Reader W) (rs : list (ResettableReader W)) (h : W)
    : W :=
  match rs with
  | [] => h
  | r :: rs' => rreset_heap (rr_Reader r) rs' (rr_Reset r prev h).2
  end.

(** The bytes passed to [Write] calls in a log, in order. *)
Fixpoint written (l : list (Event W)) : list byte :=
  match l with
  | [] => []
  | CallWrite _ q :: l' => q ++ written l'
  | _ :: l' => written l'
  end.

(** The bytes a [Read(p)] result hands to its caller: [p[:n]] of the
    slice after the read. *)
Definition delivered (p : slice) (res : list byte * Z * option error)
    : list byte :=
  take (Z.to_nat res.1.2) (res.1.1 ++ spare p).

(** Two read stacks with the same layers above a base that is [s] in one
    and the PassthroughReader on [s] in the other, over the same heap;
    or both closed. *)
Definition over_passthrough (s : Reader W) (bare wrapped : MultiReader.St W)
    : Prop :=
  heap wrapped = heap bare
  /\ (MultiReader.readers (self bare) = []
      /\ MultiReader.readers (self wrapped) = []
      \/ exists ls,
           MultiReader.readers (self bare) = s :: ls
           /\ MultiReader.readers (self wrapped)
              = PassthroughReader.iface s :: ls).

(** The layer a client call attaches, if any, resets alike on [s] and on
    the PassthroughReader on [s]. *)
Definition reset_blind (s : Reader W) (o : rop W) : Prop :=
  match o with
  | RAdd (Some r) => rr_Reset r (PassthroughReader.iface s) = rr_Reset r s
  | _ => True
  end.

(** Running [f] on each element in order, collecting the results. *)
Fixpoint each {S A B} (f : A -> F S B) (l : list A) : F S (list B) :=
  match l with
  | [] => mret []
  | a :: l' => b ← f a; bs ← each f l'; mret (b :: bs)
  end.
End Reference2.
Arguments layers_added {W}.
Arguments accepted {W}.
Arguments rresets_given {W}.
Arguments rreset_heap {W}.
Arguments written {W}.
Arguments over_passthrough {W}.
Arguments reset_blind {W}.

Module Sample2.
(** A source that fills the buffer with zero bytes, up to three at a
    time, and counts its calls. *)
Definition zeros : Reader nat :=
  mkReader (fun p h => ((replicate (length p) Byte.x00,
                         Z.of_nat (Nat.min 3 (length p)), None), S h))
           None.

(** A layer that accepts any source; its Reset doubles the call count and
    adds five, so the heap tells in which order resets ran. *)
Definition framer : ResettableReader nat :=
  mkResettableReader
    (mkReader (fun p h => ((p, 0, Some io_EOF), S h)) None)
    (fun _ h => (None, (2 * h + 5)%nat)).

(** A writer layer whose Reset doubles the call count and adds five. *)
Definition gzip : ResettableWriter nat :=
  mkResettableWriter
    (mkWriter (fun p h => ((Z.of_nat (length p), None), S h)) None None)
    (fun _ h => (2 * h + 5)%nat).

(** A target whose writes fail. *)
Definition broken : Writer nat :=
  mkWriter (fun p h => ((0, Some io_ErrClosedPipe), S h)) None
           (Some (fun h => (Some (layer_error 5), S h))).

Definition tee : ReaderToWriter.St nat :=
  mkState (ReaderToWriter.mk (Some zeros) (Some broken)) 0%nat [].

(** A source that reports five bytes whatever the buffer. *)
Definition greedy : Reader nat :=
  mkReader (fun p h => ((replicate (length p) Byte.x01, 5, None), S h)) None.

Definition greedy_tee : ReaderToWriter.St nat :=
  mkState (ReaderToWriter.mk (Some greedy) (Some broken)) 0%nat [].

(** [make([]byte, 2)] and [make([]byte, 2, 6)]. *)
Definition tight : slice := mkSlice [Byte.x68; Byte.x69] [].

Definition roomy : slice :=
  mkSlice [Byte.x68; Byte.x69] [Byte.x07; Byte.x07; Byte.x07; Byte.x07].

Definition none : slice := mkSlice [] [].

(** A layer that accepts only a source that can be closed. *)
Definition owner : ResettableReader nat :=
  mkResettableReader
    (mkReader (fun p h => ((p, 0, Some io_EOF), S h)) None)
    (fun prev h => (match Reader_Closer prev with
                    | Some _ => None
                    | None => Some (layer_error 9)
                    end, S h)).
End Sample2.

(** * Properties *)

Ltac unfold_m :=
  unfold mbind, mret, M_bind, M_ret, bind, ret, throw, void,
    get_self, set_self, call in *.

Section Generic.
Context {W : Type}.

Lemma slice_index_lookup {S L} (s : list L) (i : nat) (x : L) (st : S) :
  s !! i = Some x ->
  slice_index s (Z.of_nat i) st = (Returns x, st).
Proof.
  intros Hx. unfold slice_index.
  pose proof (lookup_lt_Some _ _ _ Hx) as Hlt.
  replace ((0 <=? Z.of_nat i) && (Z.of_nat i <? Z.of_nat (length s)))
    with true by (symmetry; apply andb_true_iff; split; lia).
  rewrite Nat2Z.id, Hx. reflexivity.
Qed.

Lemma slice_index_last {S L} (s : list L) (x : L) (st : S) :
  last s = Some x ->
  slice_index s (Z.of_nat (length s) - 1) st = (Returns x, st).
Proof.
  intros Hx. rewrite last_lookup in Hx.
  destruct s as [|y s]; [discriminate|].
  replace (Z.of_nat (length (y :: s)) - 1) with (Z.of_nat (pred (length (y :: s))))
    by (cbn [length pred]; lia).
  now apply slice_index_lookup.
Qed.

Lemma keep_first_cons (fe e : option error) (es : list (option error)) :
  keep_first (keep_first fe e) (first_error es)
  = keep_first fe (first_error (e :: es)).
Proof. destruct fe, e; cbn; try reflexivity; destruct (first_error es); reflexivity. Qed.

Lemma keep_first_None (e : option error) : keep_first None e = e.
Proof. now destruct e. Qed.

Lemma first_error_app (es1 es2 : list (option error)) :
  first_error (es1 ++ es2) = keep_first (first_error es1) (first_error es2).
Proof.
  induction es1 as [|[e|] es1 IH]; cbn.
  - now rewrite keep_first_None.
  - now destruct (first_error es2).
  - exact IH.
Qed.

(** The calls of [run_caps] are made on the implementers, all of them, in
    list order, whatever they return. *)
Lemma run_caps_layers {L} (cap : L -> option (err_method W)) (ls : list L) (h : W) :
  (run_caps cap ls h).1.*1 = implementers cap ls.
Proof.
  unfold implementers. revert h.
  induction ls as [|x ls IH]; intros h; [reflexivity|].
  rewrite filter_cons. cbn [run_caps].
  destruct (cap x) as [f|] eqn:Hc.
  - destruct (f h) as [e h1]. specialize (IH h1).
    destruct (run_caps cap ls h1) as [calls h2]. cbn in *.
    rewrite decide_True by eauto. now rewrite IH.
  - rewrite decide_False by (intros [? ?]; discriminate). apply IH.
Qed.

(** The index loop is the top-to-base traversal: it never panics, calls
    the capability of each implementer among the first [n] layers from
    index [n-1] down to [0], and keeps the first error. *)
Lemma sweep_run_caps {Self L} (layers : Self -> list L)
    (cap : L -> option (err_method W)) (ev : L -> Event W) (n : nat) :
  forall (fe : option error) (st : State W Self),
  (n <= length (layers (self st)))%nat ->
  sweep layers cap ev n fe st
  = let r := run_caps cap (reverse (take n (layers (self st)))) (heap st) in
    (Returns (keep_first fe (first_error r.1.*2)),
     mkState (self st) r.2 (log st ++ (ev <$> r.1.*1))).
Proof.
  induction n as [|i IH]; intros fe st Hn.
  - cbn. rewrite take_0. cbn. rewrite app_nil_r.
    destruct st, fe; reflexivity.
  - destruct (lookup_lt_is_Some_2 (layers (self st)) i) as [x Hx]; [lia|].
    rewrite (take_S_r _ _ _ Hx), reverse_snoc.
    cbn [sweep]. unfold_m. cbn.
    rewrite (slice_index_lookup _ _ _ _ Hx).
    destruct (cap x) as [f|] eqn:Hc.
    + destruct (f (heap st)) as [e h1] eqn:Hf.
      rewrite IH by (cbn; lia). cbn [self heap log].
      destruct (run_caps cap (reverse (take i (layers (self st)))) h1)
        as [calls h2].
      cbn. rewrite keep_first_cons, <- app_assoc. reflexivity.
    + now rewrite IH by lia.
Qed.

Lemma sweep_all {Self L} (layers : Self -> list L)
    (cap : L -> option (err_method W)) (ev : L -> Event W)
    (fe : option error) (m : Self) (h : W) (l : list (Event W)) :
  sweep layers cap ev (length (layers m)) fe (mkState m h l)
  = let r := run_caps cap (reverse (layers m)) h in
    (Returns (keep_first fe (first_error r.1.*2)),
     mkState m r.2 (l ++ (ev <$> r.1.*1))).
Proof. rewrite sweep_run_caps by (cbn; lia). cbn. now rewrite firstn_all. Qed.
End Generic.

(** ** The methods of the write stack *)

Section WriterFacts.
Context {W : Type}.
Implicit Types (st : StackWriter.St W) (w : ResettableWriter W).
Implicit Types (top prev b : Writer W) (p : list byte).

Lemma AddWriter_nil st :
  StackWriter.AddWriter None st
  = (Returns (Some (errors_New "writer cannot be nil")), st).
Proof. reflexivity. Qed.

Lemma AddWriter_top st w prev :
  last (StackWriter.writers (self st)) = Some prev ->
  StackWriter.AddWriter (Some w) st
  = (Returns None,
     mkState (StackWriter.mk (StackWriter.base (self st))
                (StackWriter.writers (self st) ++ [rw_Writer w]))
             (rw_Reset w prev (heap st))
             (log st ++ [CallWReset w prev])).
Proof.
  intros Hl. unfold StackWriter.AddWriter. unfold_m. cbn.
  now rewrite (slice_index_last _ _ _ Hl).
Qed.

Lemma AddWriter_closed st w :
  StackWriter.writers (self st) = [] ->
  StackWriter.AddWriter (Some w) st = (Panics (index_out_of_range (-1) 0), st).
Proof.
  intros Hc. unfold StackWriter.AddWriter. unfold_m. cbn.
  rewrite Hc. reflexivity.
Qed.

Lemma Write_top st p top :
  last (StackWriter.writers (self st)) = Some top ->
  StackWriter.Write p st = call (CallWrite top p) (Writer_Write top p) st.
Proof.
  intros Hl. unfold StackWriter.Write. unfold_m. cbn.
  destruct (decide (length (StackWriter.writers (self st)) = 0%nat)) as [H0|_].
  - apply length_zero_iff_nil in H0. rewrite H0 in Hl. discriminate.
  - now rewrite (slice_index_last _ _ _ Hl).
Qed.

Lemma Write_closed st p :
  StackWriter.writers (self st) = [] ->
  StackWriter.Write p st = (Returns (0, Some io_ErrClosedPipe), st).
Proof.
  intros Hc. unfold StackWriter.Write. unfold_m. cbn.
  rewrite Hc. reflexivity.
Qed.

Lemma Flush_run_caps st :
  StackWriter.Flush st
  = let r := run_caps Writer_Flusher
               (reverse (StackWriter.writers (self st))) (heap st) in
    (Returns (first_error r.1.*2),
     mkState (self st) r.2 (log st ++ (CallFlush <$> r.1.*1))).
Proof.
  destruct st as [m h l]. unfold StackWriter.Flush. unfold_m. cbn.
  rewrite sweep_all. cbn. now rewrite keep_first_None.
Qed.

Lemma WClose_run_caps st :
  StackWriter.Close st
  = let r := run_caps Writer_Closer
               (reverse (StackWriter.writers (self st))) (heap st) in
    (Returns (first_error r.1.*2),
     mkState (StackWriter.mk (StackWriter.base (self st)) [])
             r.2 (log st ++ (CallWClose <$> r.1.*1))).
Proof.
  destruct st as [m h l]. unfold StackWriter.Close. unfold_m. cbn.
  rewrite sweep_all. cbn. now rewrite keep_first_None.
Qed.

Lemma FlushAndClose_run_caps st :
  StackWriter.FlushAndClose st
  = let order := reverse (StackWriter.writers (self st)) in
    let f := run_caps Writer_Flusher order (heap st) in
    let c := run_caps Writer_Closer order f.2 in
    (Returns (first_error (f.1.*2 ++ c.1.*2)),
     mkState (StackWriter.mk (StackWriter.base (self st)) [])
             c.2
             (log st ++ (CallFlush <$> f.1.*1) ++ (CallWClose <$> c.1.*1))).
Proof.
  destruct st as [m h l]. unfold StackWriter.FlushAndClose. unfold_m. cbn.
  rewrite sweep_all. cbn. rewrite sweep_all. cbn.
  rewrite keep_first_None, first_error_app, <- app_assoc. reflexivity.
Qed.
End WriterFacts.

(** ** The methods of the read stack *)

Section ReaderFacts.
Context {W : Type}.
Implicit Types (st : MultiReader.St W) (r : ResettableReader W).
Implicit Types (top prev b : Reader W) (p : list byte).

Lemma AddReader_nil st :
  MultiReader.AddReader None st
  = (Returns (Some (errors_New "reader cannot be nil")), st).
Proof. reflexivity. Qed.

Lemma AddReader_top st r prev :
  last (MultiReader.readers (self st)) = Some prev ->
  MultiReader.AddReader (Some r) st
  = match rr_Reset r prev (heap st) with
    | (Some e, h) =>
        (Returns (Some e), mkState (self st) h (log st ++ [CallRReset r prev]))
    | (None, h) =>
        (Returns None,
         mkState (MultiReader.mk (MultiReader.readers (self st) ++ [rr_Reader r]))
                 h (log st ++ [CallRReset r prev]))
    end.
Proof.
  intros Hl. unfold MultiReader.AddReader. unfold_m. cbn.
  rewrite (slice_index_last _ _ _ Hl).
  destruct (rr_Reset r prev (heap st)) as [[e|] h]; reflexivity.
Qed.

Lemma AddReader_closed st r :
  MultiReader.readers (self st) = [] ->
  MultiReader.AddReader (Some r) st = (Panics (index_out_of_range (-1) 0), st).
Proof.
  intros Hc. unfold MultiReader.AddReader. unfold_m. cbn.
  rewrite Hc. reflexivity.
Qed.

Lemma Read_top st p top :
  last (MultiReader.readers (self st)) = Some top ->
  MultiReader.Read p st = call (CallRead top p) (Reader_Read top p) st.
Proof.
  intros Hl. unfold MultiReader.Read. unfold_m. cbn.
  destruct (decide (length (MultiReader.readers (self st)) = 0%nat)) as [H0|_].
  - apply length_zero_iff_nil in H0. rewrite H0 in Hl. discriminate.
  - now rewrite (slice_index_last _ _ _ Hl).
Qed.

Lemma Read_closed st p :
  MultiReader.readers (self st) = [] ->
  MultiReader.Read p st = (Returns (p, 0, Some io_EOF), st).
Proof.
  intros Hc. unfold MultiReader.Read. unfold_m. cbn.
  rewrite Hc. reflexivity.
Qed.

Lemma RClose_run_caps st :
  MultiReader.Close st
  = let r := run_caps Reader_Closer
               (reverse (MultiReader.readers (self st))) (heap st) in
    (Returns (first_error r.1.*2),
     mkState (MultiReader.mk []) r.2 (log st ++ (CallRClose <$> r.1.*1))).
Proof.
  destruct st as [m h l]. unfold MultiReader.Close. unfold_m. cbn.
  rewrite sweep_all. cbn. now rewrite keep_first_None.
Qed.
End ReaderFacts.

(** ** Sequences of attachments and of client calls *)

Section Sequences.
Context {W : Type}.

Lemma last_cons_default {A} (x : A) (l : list A) :
  last (x :: l) = Some (default x (last l)).
Proof. rewrite last_cons. now destruct (last l). Qed.

Lemma for_each_cons {S A B} (f : A -> M S B) (a : A) (l : list A) (st : S) :
  for_each f (a :: l) st
  = match f a st with
    | (Returns b, s1) =>
        match for_each f l s1 with
        | (Returns bs, s2) => (Returns (b :: bs), s2)
        | (Panics q, s2) => (Panics q, s2)
        end
    | (Panics q, s1) => (Panics q, s1)
    end.
Proof. reflexivity. Qed.

(** Attaching writers one after the other on a stack that is not closed:
    every add returns nil, the layers are appended in order, and each
    reset gets the layer below. *)
Lemma add_writers_from (ls : list (ResettableWriter W)) :
  forall (st : StackWriter.St W) (prev : Writer W),
  last (StackWriter.writers (self st)) = Some prev ->
  for_each (fun l => StackWriter.AddWriter (Some l)) ls st
  = (Returns (replicate (length ls) None),
     mkState (StackWriter.mk (StackWriter.base (self st))
                (StackWriter.writers (self st) ++ (rw_Writer <$> ls)))
             (wreset_heap prev ls (heap st))
             (log st ++ wresets prev ls)).
Proof.
  induction ls as [|l ls IH]; intros st prev Hl.
  - cbn. rewrite !app_nil_r. now destruct st as [[? ?] ? ?].
  - rewrite for_each_cons, (AddWriter_top _ _ _ Hl).
    rewrite (IH _ (rw_Writer l)) by (cbn; apply last_snoc).
    cbn. rewrite <- !app_assoc. reflexivity.
Qed.

(** Attaching readers one after the other on a stack that is not closed
    never panics; when every add returned nil the layers were appended in
    order and each reset got the layer below. *)
Lemma add_readers_from (rs : list (ResettableReader W)) :
  forall (st : MultiReader.St W) (prev : Reader W),
  last (MultiReader.readers (self st)) = Some prev ->
  exists errs st',
    for_each (fun r => MultiReader.AddReader (Some r)) rs st = (Returns errs, st')
    /\ (Forall (eq None) errs ->
        MultiReader.readers (self st')
        = MultiReader.readers (self st) ++ (rr_Reader <$> rs)
        /\ heap st' = rreset_heap prev rs (heap st)
        /\ log st' = log st ++ rresets prev rs).
Proof.
  induction rs as [|r rs IH]; intros st prev Hl.
  - exists [], st. split; [reflexivity|]. intros _. cbn. now rewrite !app_nil_r.
  - rewrite for_each_cons, (AddReader_top _ _ _ Hl).
    destruct (rr_Reset r prev (heap st)) as [[e|] h1] eqn:Hreset.
    + destruct (IH (mkState (self st) h1 (log st ++ [CallRReset r prev])) prev Hl)
        as (errs & st' & Hrun & _).
      rewrite Hrun. eexists _, _. split; [reflexivity|].
      intros Hall. inversion Hall; discriminate.
    + destruct (IH (mkState (MultiReader.mk
                               (MultiReader.readers (self st) ++ [rr_Reader r]))
                            h1 (log st ++ [CallRReset r prev]))
                   (rr_Reader r) (last_snoc _ _))
        as (errs & st' & Hrun & Hok).
      rewrite Hrun. eexists _, _. split; [reflexivity|].
      intros Hall. inversion Hall as [|? ? _ Hall']; subst.
      destruct (Hok Hall') as (Hrs & Hheap & Hlog). cbn in Hrs, Hheap, Hlog.
      rewrite Hrs, Hheap, Hlog. cbn. rewrite Hreset, <- !app_assoc. auto.
Qed.

Lemma void_eq {S A} (c : M S A) (st : S) :
  void c st
  = match c st with
    | (Returns _, s) => (Returns tt, s)
    | (Panics q, s) => (Panics q, s)
    end.
Proof. reflexivity. Qed.

(** One client call on a write stack that is not closed. *)
Lemma wexec_open (o : wop W) (st : StackWriter.St W) (top : Writer W) :
  last (StackWriter.writers (self st)) = Some top ->
  (wexec o st).1 = Returns tt
  /\ StackWriter.base (self (wexec o st).2) = StackWriter.base (self st)
  /\ StackWriter.writers (self (wexec o st).2)
     = match o with
       | WAdd (Some w) => StackWriter.writers (self st) ++ [rw_Writer w]
       | WClose | WFlushAndClose => []
       | _ => StackWriter.writers (self st)
       end.
Proof.
  intros Hl. destruct o as [[w|]|p| | |]; cbn [wexec]; rewrite void_eq.
  - rewrite (AddWriter_top _ _ _ Hl). auto.
  - rewrite AddWriter_nil. auto.
  - rewrite (Write_top _ _ _ Hl). unfold call.
    destruct (Writer_Write top p (heap st)). auto.
  - rewrite Flush_run_caps. auto.
  - rewrite WClose_run_caps. auto.
  - rewrite FlushAndClose_run_caps. auto.
Qed.

(** One client call on a closed write stack leaves it closed. *)
Lemma wexec_closed (o : wop W) (st : StackWriter.St W) :
  StackWriter.writers (self st) = [] ->
  StackWriter.writers (self (wexec o st).2) = [].
Proof.
  intros Hc. destruct o as [[w|]|p| | |]; cbn [wexec]; rewrite void_eq.
  - now rewrite (AddWriter_closed _ _ Hc).
  - now rewrite AddWriter_nil.
  - now rewrite (Write_closed _ _ Hc).
  - now rewrite Flush_run_caps.
  - now rewrite WClose_run_caps.
  - now rewrite FlushAndClose_run_caps.
Qed.

Lemma wrun_closed (ops : list (wop W)) :
  forall st : StackWriter.St W,
  StackWriter.writers (self st) = [] ->
  StackWriter.writers (self (run wexec ops st)) = [].
Proof.
  induction ops as [|o ops IH]; intros st Hc; [exact Hc|].
  cbn [run]. apply IH. now apply wexec_closed.
Qed.

(** One client call on a read stack that is not closed. *)
Lemma rexec_open (o : rop W) (st : MultiReader.St W) (top : Reader W) :
  last (MultiReader.readers (self st)) = Some top ->
  (rexec o st).1 = Returns tt
  /\ match o with
     | RAdd (Some r) =>
         MultiReader.readers (self (rexec o st).2)
         = match (rr_Reset r top (heap st)).1 with
           | Some _ => MultiReader.readers (self st)
           | None => MultiReader.readers (self st) ++ [rr_Reader r]
           end
     | RClose => MultiReader.readers (self (rexec o st).2) = []
     | _ => MultiReader.readers (self (rexec o st).2)
            = MultiReader.readers (self st)
     end.
Proof.
  intros Hl. destruct o as [[r|]|p|]; cbn [rexec]; rewrite void_eq.
  - rewrite (AddReader_top _ _ _ Hl).
    destruct (rr_Reset r top (heap st)) as [[e|] h1]; auto.
  - rewrite AddReader_nil. auto.
  - rewrite (Read_top _ _ _ Hl). unfold call.
    destruct (Reader_Read top p (heap st)). auto.
  - rewrite RClose_run_caps. auto.
Qed.

Lemma rexec_closed (o : rop W) (st : MultiReader.St W) :
  MultiReader.readers (self st) = [] ->
  MultiReader.readers (self (rexec o st).2) = [].
Proof.
  intros Hc. destruct o as [[r|]|p|]; cbn [rexec]; rewrite void_eq.
  - now rewrite (AddReader_closed _ _ Hc).
  - now rewrite AddReader_nil.
  - now rewrite (Read_closed _ _ Hc).
  - now rewrite RClose_run_caps.
Qed.

Lemma rrun_closed (ops : list (rop W)) :
  forall st : MultiReader.St W,
  MultiReader.readers (self st) = [] ->
  MultiReader.readers (self (run rexec ops st)) = [].
Proof.
  induction ops as [|o ops IH]; intros st Hc; [exact Hc|].
  cbn [run]. apply IH. now apply rexec_closed.
Qed.

(** Client calls none of which closes keep the base at index 0. *)
Lemma wrun_open (ops : list (wop W)) :
  forall (st : StackWriter.St W) (b : Writer W),
  Forall (fun o => wcloses o = false) ops ->
  head (StackWriter.writers (self st)) = Some b ->
  head (StackWriter.writers (self (run wexec ops st))) = Some b
  /\ StackWriter.base (self (run wexec ops st)) = StackWriter.base (self st).
Proof.
  induction ops as [|o ops IH]; intros st b Hops Hb; [auto|].
  inversion Hops as [|? ? Ho Hops']; subst. cbn [run].
  destruct (StackWriter.writers (self st)) as [|x ws] eqn:Hws; [discriminate|].
  destruct (wexec_open o st (default x (last ws))) as (_ & Hbase & Hseq).
  { rewrite Hws. apply last_cons_default. }
  destruct (IH (wexec o st).2 b Hops') as [Hh Hb'].
  - rewrite Hseq, Hws. destruct o as [[w|]|p| | |]; try discriminate; exact Hb.
  - split; [exact Hh|]. now rewrite Hb', Hbase.
Qed.

Lemma rrun_open (ops : list (rop W)) :
  forall (st : MultiReader.St W) (b : Reader W),
  Forall (fun o => rcloses o = false) ops ->
  head (MultiReader.readers (self st)) = Some b ->
  head (MultiReader.readers (self (run rexec ops st))) = Some b.
Proof.
  induction ops as [|o ops IH]; intros st b Hops Hb; [auto|].
  inversion Hops as [|? ? Ho Hops']; subst. cbn [run].
  destruct (MultiReader.readers (self st)) as [|x rs] eqn:Hrs; [discriminate|].
  destruct (rexec_open o st (default x (last rs))) as (_ & Hseq).
  { rewrite Hrs. apply last_cons_default. }
  apply IH; [exact Hops'|].
  destruct o as [[r|]|p|]; try discriminate; rewrite Hseq, ?Hrs; try exact Hb.
  destruct (rr_Reset r (default x (last rs)) (heap st)).1; exact Hb.
Qed.
End Sequences.

(** ** The stack protocol *)

Section Protocol.
Context {W : Type}.

(** C1.  A stack built from a non-nil base [b] to which the layers
    [L1..Ln] were attached in order, every add returning nil, has the
    layers [b, L1, .., Ln]; the calls made on the layers so far are
    exactly [L1.Reset(b), L2.Reset(L1), .., Ln.Reset(L(n-1))], one per
    attach and in attach order; and a Write (write stack) or Read (read
    stack) is the call of the same method on [Ln], or on [b] when no
    layer was attached.  The resets were run: the heap is the one they
    leave, each on the heap left by the one before.  On the write stack
    every add of a non-nil layer returns nil; on the read stack the adds
    never panic. *)
Theorem C1_attach_in_order_then_delegate
    (b : Writer W) (ls : list (ResettableWriter W))
    (rb : Reader W) (rs : list (ResettableReader W))
    (h : W) (p : list byte) :
  (StackWriter.NewStackWriter (Some b) = (Some (StackWriter.mk b [b]), None)
   /\ exists st,
        for_each (fun l => StackWriter.AddWriter (Some l)) ls
                 (mkState (StackWriter.mk b [b]) h [])
        = (Returns (replicate (length ls) None), st)
        /\ StackWriter.writers (self st) = b :: (rw_Writer <$> ls)
        /\ heap st = wreset_heap b ls h
        /\ log st = wresets b ls
        /\ let top := default b (last (rw_Writer <$> ls)) in
           StackWriter.Write p st
           = call (CallWrite top p) (Writer_Write top p) st)
  /\ (MultiReader.NewReader (Some rb) = (Some (MultiReader.mk [rb]), None)
      /\ (exists errs st,
            for_each (fun r => MultiReader.AddReader (Some r)) rs
                     (mkState (MultiReader.mk [rb]) h [])
            = (Returns errs, st))
      /\ forall errs st,
           for_each (fun r => MultiReader.AddReader (Some r)) rs
                    (mkState (MultiReader.mk [rb]) h [])
           = (Returns errs, st) ->
           Forall (eq None) errs ->
           MultiReader.readers (self st) = rb :: (rr_Reader <$> rs)
           /\ heap st = rreset_heap rb rs h
           /\ log st = rresets rb rs
           /\ let top := default rb (last (rr_Reader <$> rs)) in
              MultiReader.Read p st
              = call (CallRead top p) (Reader_Read top p) st).
Proof.
  split.
  - split; [reflexivity|]. eexists. split.
    + now apply (add_writers_from ls _ b).
    + cbn. repeat split.
      apply Write_top. cbn [self StackWriter.writers].
      apply (last_cons_default b).
  - split; [reflexivity|].
    destruct (add_readers_from rs (mkState (MultiReader.mk [rb]) h []) rb eq_refl)
      as (errs & st & Hrun & Hok).
    split; [now exists errs, st|].
    intros errs' st' Hrun' Hall. rewrite Hrun in Hrun'.
    injection Hrun' as <- <-. destruct (Hok Hall) as (Hrs & Hheap & Hlog).
    cbn in Hrs, Hheap, Hlog. repeat split; [exact Hrs|exact Hheap|exact Hlog|].
    apply Read_top. rewrite Hrs. apply (last_cons_default rb).
Qed.

(** C2.  Close and FlushAndClose return, whatever the layers' calls
    return, and leave the layer sequence empty; from then on, whatever
    the client calls in between, the sequence stays empty, every Write
    returns [(0, io.ErrClosedPipe)] and every Read returns [(0, io.EOF)],
    without touching the buffer, the layers or the stack. *)
Theorem C2_closed_stack_stays_closed
    (st : StackWriter.St W) (wops : list (wop W))
    (rst : MultiReader.St W) (rops : list (rop W)) (p : list byte) :
  (forall closed,
     closed = StackWriter.Close st \/ closed = StackWriter.FlushAndClose st ->
     (exists e, closed.1 = Returns e)
     /\ StackWriter.writers (self closed.2) = []
     /\ let st' := run wexec wops closed.2 in
        StackWriter.writers (self st') = []
        /\ StackWriter.Write p st' = (Returns (0, Some io_ErrClosedPipe), st'))
  /\ (let closed := MultiReader.Close rst in
      (exists e, closed.1 = Returns e)
      /\ MultiReader.readers (self closed.2) = []
      /\ let st' := run rexec rops closed.2 in
         MultiReader.readers (self st') = []
         /\ MultiReader.Read p st' = (Returns (p, 0, Some io_EOF), st')).
Proof.
  split.
  - intros closed Hclosed.
    assert (Hc : (exists e, closed.1 = Returns e)
                 /\ StackWriter.writers (self closed.2) = []).
    { destruct Hclosed as [-> | ->].
      - rewrite WClose_run_caps. cbn. eauto.
      - rewrite FlushAndClose_run_caps. cbn. eauto. }
    destruct Hc as [He Hc]. repeat split; [exact He|exact Hc| |].
    + now apply wrun_closed.
    + apply Write_closed. now apply wrun_closed.
  - cbn zeta. rewrite RClose_run_caps. cbn. repeat split; [eauto| |].
    + now apply rrun_closed.
    + apply Read_closed. now apply rrun_closed.
Qed.

(** C3.  Flush and both Close methods call the capability on the layers
    that implement it and on no other, from the top layer down to the
    base, all of them whatever the calls return, and return the first
    non-nil error in that order (nil when there is none). *)
Theorem C3_sweeps_run_top_to_base (st : StackWriter.St W) (rst : MultiReader.St W) :
  (let order := reverse (StackWriter.writers (self st)) in
   let r := run_caps Writer_Flusher order (heap st) in
   StackWriter.Flush st
   = (Returns (first_error r.1.*2),
      mkState (self st) r.2 (log st ++ (CallFlush <$> r.1.*1)))
   /\ r.1.*1 = implementers Writer_Flusher order)
  /\ (let order := reverse (StackWriter.writers (self st)) in
      let r := run_caps Writer_Closer order (heap st) in
      StackWriter.Close st
      = (Returns (first_error r.1.*2),
         mkState (StackWriter.mk (StackWriter.base (self st)) [])
                 r.2 (log st ++ (CallWClose <$> r.1.*1)))
      /\ r.1.*1 = implementers Writer_Closer order)
  /\ (let order := reverse (MultiReader.readers (self rst)) in
      let r := run_caps Reader_Closer order (heap rst) in
      MultiReader.Close rst
      = (Returns (first_error r.1.*2),
         mkState (MultiReader.mk []) r.2 (log rst ++ (CallRClose <$> r.1.*1)))
      /\ r.1.*1 = implementers Reader_Closer order).
Proof.
  repeat split.
  - apply Flush_run_caps.
  - apply run_caps_layers.
  - apply WClose_run_caps.
  - apply run_caps_layers.
  - apply RClose_run_caps.
  - apply run_caps_layers.
Qed.

(** C4.  FlushAndClose first calls Flush on every layer that implements
    it, top to base, then Close on every layer that implements it, top to
    base; it returns the first non-nil error of the flushes followed by
    the closes, and leaves the layer sequence empty. *)
Theorem C4_flush_pass_then_close_pass (st : StackWriter.St W) :
  let order := reverse (StackWriter.writers (self st)) in
  let f := run_caps Writer_Flusher order (heap st) in
  let c := run_caps Writer_Closer order f.2 in
  StackWriter.FlushAndClose st
  = (Returns (first_error (f.1.*2 ++ c.1.*2)),
     mkState (StackWriter.mk (StackWriter.base (self st)) [])
             c.2
             (log st ++ (CallFlush <$> implementers Writer_Flusher order)
                     ++ (CallWClose <$> implementers Writer_Closer order)))
  /\ f.1.*1 = implementers Writer_Flusher order
  /\ c.1.*1 = implementers Writer_Closer order.
Proof.
  cbn zeta. rewrite FlushAndClose_run_caps. cbn zeta.
  rewrite !run_caps_layers. repeat split.
Qed.

(** C5.  On a read stack whose top is [prev], if [r.Reset(prev)] returns
    a non-nil error then AddReader returns that error, [Reset] being the
    only call made, and the stack object is as it was: same layers, same
    length, same top. *)
Theorem C5_failed_reset_aborts_attach
    (st : MultiReader.St W) (r : ResettableReader W) (prev : Reader W)
    (e : error) (h' : W) :
  last (MultiReader.readers (self st)) = Some prev ->
  rr_Reset r prev (heap st) = (Some e, h') ->
  let res := MultiReader.AddReader (Some r) st in
  res = (Returns (Some e), mkState (self st) h' (log st ++ [CallRReset r prev]))
  /\ MultiReader.readers (self res.2) = MultiReader.readers (self st)
  /\ length (MultiReader.readers (self res.2))
     = length (MultiReader.readers (self st))
  /\ last (MultiReader.readers (self res.2)) = Some prev.
Proof.
  intros Hl Hr. cbn zeta. rewrite (AddReader_top _ _ _ Hl), Hr. cbn. auto.
Qed.

(** C6.  Constructing a stack from a nil base returns no stack and a
    non-nil error; adding a nil layer returns a non-nil error and leaves
    the stack, the layers and the log as they were. *)
Theorem C6_nil_arguments_rejected (st : StackWriter.St W) (rst : MultiReader.St W) :
  @StackWriter.NewStackWriter W None
  = (None, Some (errors_New "base writer cannot be nil"))
  /\ @MultiReader.NewReader W None
     = (None, Some (errors_New "base reader cannot be nil"))
  /\ StackWriter.AddWriter None st
     = (Returns (Some (errors_New "writer cannot be nil")), st)
  /\ MultiReader.AddReader None rst
     = (Returns (Some (errors_New "reader cannot be nil")), rst).
Proof. repeat split. Qed.

(** C7.  In every state reached from construction by client calls none
    of which is Close or FlushAndClose, the layer sequence has the base
    at index 0 (so it is not empty); the next client call, whatever it
    is, returns, and leaves the sequence as it was, or with one more
    layer at the end, or, only when it is Close or FlushAndClose,
    empty. *)
Theorem C7_sequence_grows_until_closed
    (b : Writer W) (wops : list (wop W)) (wo : wop W)
    (rb : Reader W) (rops : list (rop W)) (ro : rop W) (h : W) :
  (Forall (fun o => wcloses o = false) wops ->
   let st := run wexec wops (mkState (StackWriter.mk b [b]) h []) in
   let st' := (wexec wo st).2 in
   StackWriter.writers (self st) !! 0%nat = Some b
   /\ StackWriter.base (self st) = b
   /\ (wexec wo st).1 = Returns tt
   /\ step_shape (wcloses wo)
        (StackWriter.writers (self st)) (StackWriter.writers (self st'))
   /\ (StackWriter.writers (self st') = [] -> wcloses wo = true))
  /\ (Forall (fun o => rcloses o = false) rops ->
      let st := run rexec rops (mkState (MultiReader.mk [rb]) h []) in
      let st' := (rexec ro st).2 in
      MultiReader.readers (self st) !! 0%nat = Some rb
      /\ (rexec ro st).1 = Returns tt
      /\ step_shape (rcloses ro)
           (MultiReader.readers (self st)) (MultiReader.readers (self st'))
      /\ (MultiReader.readers (self st') = [] -> rcloses ro = true)).
Proof.
  split; intros Hops; cbn zeta.
  - destruct (wrun_open wops (mkState (StackWriter.mk b [b]) h []) b Hops eq_refl)
      as [Hhead Hbase].
    set (st := run wexec wops _) in *.
    destruct (StackWriter.writers (self st)) as [|x ws] eqn:Hws; [discriminate|].
    destruct (wexec_open wo st (default x (last ws))) as (Hret & _ & Hseq).
    { rewrite Hws. apply last_cons_default. }
    rewrite Hseq, Hws. repeat split; [exact Hhead|exact Hbase|exact Hret| |].
    + unfold step_shape.
      destruct wo as [[w|]|q| | |]; cbn; eauto.
    + destruct wo as [[w|]|q| | |]; cbn; try reflexivity; discriminate.
  - pose proof (rrun_open rops (mkState (MultiReader.mk [rb]) h []) rb Hops eq_refl)
      as Hhead.
    set (st := run rexec rops _) in *.
    destruct (MultiReader.readers (self st)) as [|x rs] eqn:Hrs; [discriminate|].
    destruct (rexec_open ro st (default x (last rs))) as (Hret & Hseq).
    { rewrite Hrs. apply last_cons_default. }
    repeat split; [exact Hhead|exact Hret| |].
    + unfold step_shape.
      destruct ro as [[r|]|q|]; rewrite Hseq, ?Hrs; cbn; eauto.
      destruct (rr_Reset r (default x (last rs)) (heap st)).1; eauto.
    + destruct ro as [[r|]|q|]; rewrite Hseq, ?Hrs; cbn;
        try reflexivity; try discriminate.
      destruct (rr_Reset r (default x (last rs)) (heap st)).1; discriminate.
Qed.

(** C8.  AddWriter and AddReader with a non-nil layer on a closed stack
    (empty layer sequence) panic with an index out of range, the index
    being -1 and the length 0: no error is returned, Reset is not called
    and nothing is appended.  On a stack that is not closed the same
    call returns. *)
Theorem C8_add_on_closed_stack_panics
    (st : StackWriter.St W) (w : ResettableWriter W)
    (rst : MultiReader.St W) (r : ResettableReader W) :
  (StackWriter.writers (self st) = [] ->
   StackWriter.AddWriter (Some w) st = (Panics (index_out_of_range (-1) 0), st))
  /\ (MultiReader.readers (self rst) = [] ->
      MultiReader.AddReader (Some r) rst
      = (Panics (index_out_of_range (-1) 0), rst))
  /\ (StackWriter.writers (self st) <> [] ->
      exists e, (StackWriter.AddWriter (Some w) st).1 = Returns e)
  /\ (MultiReader.readers (self rst) <> [] ->
      exists e, (MultiReader.AddReader (Some r) rst).1 = Returns e).
Proof.
  repeat split.
  - apply AddWriter_closed.
  - apply AddReader_closed.
  - intros Hne. destruct (StackWriter.writers (self st)) as [|x ws] eqn:Hws;
      [contradiction|].
    rewrite (AddWriter_top st w (default x (last ws))); [eauto|].
    rewrite Hws. apply last_cons_default.
  - intros Hne. destruct (MultiReader.readers (self rst)) as [|x rs] eqn:Hrs;
      [contradiction|].
    rewrite (AddReader_top rst r (default x (last rs))).
    + destruct (rr_Reset r (default x (last rs)) (heap rst)) as [[e|] h1]; eauto.
    + rewrite Hrs. apply last_cons_default.
Qed.

(** C9.  On a closed stack (empty layer sequence) Flush, Close and
    FlushAndClose of the write stack and Close of the read stack return
    nil, call no layer, and leave the sequence empty. *)
Theorem C9_sweeps_on_closed_stack
    (st : StackWriter.St W) (rst : MultiReader.St W) :
  (StackWriter.writers (self st) = [] ->
   StackWriter.Flush st = (Returns None, st)
   /\ StackWriter.Close st = (Returns None, st)
   /\ StackWriter.FlushAndClose st = (Returns None, st))
  /\ (MultiReader.readers (self rst) = [] ->
      MultiReader.Close rst = (Returns None, rst)).
Proof.
  split; intros Hc.
  - rewrite Flush_run_caps, WClose_run_caps, FlushAndClose_run_caps.
    destruct st as [[b ws] h l]. cbn in Hc. subst ws.
    cbn. rewrite !app_nil_r. auto.
  - rewrite RClose_run_caps.
    destruct rst as [[rs] h l]. cbn in Hc. subst rs.
    cbn. rewrite !app_nil_r. auto.
Qed.

(** C10.  Flush returns and leaves the stack object as it was, whatever
    the flushes return: same layers in the same order; a Write after it
    is the call of Write on the layer that was the top before it. *)
Theorem C10_flush_keeps_the_stack (st : StackWriter.St W) (p : list byte) :
  let st' := (StackWriter.Flush st).2 in
  (exists e, (StackWriter.Flush st).1 = Returns e)
  /\ self st' = self st
  /\ StackWriter.writers (self st') = StackWriter.writers (self st)
  /\ forall top,
       last (StackWriter.writers (self st)) = Some top ->
       StackWriter.Write p st = call (CallWrite top p) (Writer_Write top p) st
       /\ StackWriter.Write p st'
          = call (CallWrite top p) (Writer_Write top p) st'.
Proof.
  cbn zeta. rewrite Flush_run_caps. cbn. repeat split; [eauto| |].
  - now apply Write_top.
  - now apply Write_top.
Qed.
End Protocol.

(** ** The protocol on the sample layers *)

Section Samples.
Import Sample.

(** Two layers fail in one Close: both are closed, top first, and the
    error of the top one is returned. *)
Example close_two_failing_layers :
  StackWriter.Close wstack
  = (Returns (Some (layer_error 12)),
     mkState (StackWriter.mk sink []) 2%nat
             [CallWClose (rw_Writer (buffer 2)); CallWClose (rw_Writer (buffer 1))]).
Proof. reflexivity. Qed.

(** FlushAndClose: the two flushes, then the two closes; the first error
    is the one of the first flush. *)
Example flush_and_close_event_order :
  StackWriter.FlushAndClose wstack
  = (Returns (Some (layer_error 2)),
     mkState (StackWriter.mk sink []) 4%nat
             [CallFlush (rw_Writer (buffer 2)); CallFlush (rw_Writer (buffer 1));
              CallWClose (rw_Writer (buffer 2)); CallWClose (rw_Writer (buffer 1))]).
Proof. reflexivity. Qed.

Example write_goes_to_the_top :
  StackWriter.Write hello wstack
  = (Returns (2, None),
     mkState (self wstack) 1%nat [CallWrite (rw_Writer (buffer 2)) hello]).
Proof. reflexivity. Qed.

Lemma C1_witness :
  (exists wst,
     for_each (fun l => StackWriter.AddWriter (Some l))
              [buffer 1; Sample2.gzip; buffer 2]
              (mkState (StackWriter.mk sink [sink]) 0%nat [])
     = (Returns [None; None; None], wst)
     /\ StackWriter.writers (self wst)
        = [sink; rw_Writer (buffer 1); rw_Writer Sample2.gzip;
           rw_Writer (buffer 2)]
     /\ heap wst = 8%nat
     /\ log wst
        = [CallWReset (buffer 1) sink;
           CallWReset Sample2.gzip (rw_Writer (buffer 1));
           CallWReset (buffer 2) (rw_Writer Sample2.gzip)])
  /\ let st := mkState (MultiReader.mk
                          [source; rr_Reader decoder; rr_Reader Sample2.framer;
                           rr_Reader decoder])
                       8%nat
                       [CallRReset decoder source;
                        CallRReset Sample2.framer (rr_Reader decoder);
                        CallRReset decoder (rr_Reader Sample2.framer)] in
     MultiReader.readers (self st)
     = [source; rr_Reader decoder; rr_Reader Sample2.framer; rr_Reader decoder]
     /\ heap st = 8%nat
     /\ log st = rresets source [decoder; Sample2.framer; decoder]
     /\ MultiReader.Read hello st
        = call (CallRead (rr_Reader decoder) hello)
               (Reader_Read (rr_Reader decoder) hello) st.
Proof.
  destruct (C1_attach_in_order_then_delegate
              sink [buffer 1; Sample2.gzip; buffer 2]
              source [decoder; Sample2.framer; decoder] 0%nat hello)
    as [(_ & wst & Hrun & Hws & Hheap & Hlog & _) (_ & _ & Hr)].
  split.
  - exists wst. split; [exact Hrun|]. split; [exact Hws|].
    split; [exact Hheap | exact Hlog].
  - apply (Hr [None; None; None]); [reflexivity | repeat constructor].
Defined.

(** Three writers attached in order: the resets ran in attach order (the
    heap is 8, not 7 or 9) and Write goes to the last one. *)
Example attach_three_writers :
  for_each (fun l => StackWriter.AddWriter (Some l))
           [buffer 1; Sample2.gzip; buffer 2]
           (mkState (StackWriter.mk sink [sink]) 0%nat [])
  = (Returns [None; None; None],
     mkState (StackWriter.mk sink
                [sink; rw_Writer (buffer 1); rw_Writer Sample2.gzip;
                 rw_Writer (buffer 2)])
             8%nat
             [CallWReset (buffer 1) sink;
              CallWReset Sample2.gzip (rw_Writer (buffer 1));
              CallWReset (buffer 2) (rw_Writer Sample2.gzip)]).
Proof. reflexivity. Qed.

Lemma C2_witness :
  let st' := run wexec [WAdd (Some (buffer 3)); WFlush]
                 (StackWriter.FlushAndClose wstack).2 in
  StackWriter.writers (self st') = []
  /\ StackWriter.Write hello st' = (Returns (0, Some io_ErrClosedPipe), st').
Proof.
  destruct (C2_closed_stack_stays_closed
              wstack [WAdd (Some (buffer 3)); WFlush] rstack [] hello)
    as [Hw _].
  destruct (Hw (StackWriter.FlushAndClose wstack)) as (_ & _ & H);
    [right; reflexivity | exact H].
Defined.

Lemma C5_witness :
  MultiReader.AddReader (Some picky) rstack
  = (Returns (Some (layer_error 7)),
     mkState (self rstack) 1%nat [CallRReset picky (rr_Reader decoder)]).
Proof.
  apply (C5_failed_reset_aborts_attach
           rstack picky (rr_Reader decoder) (layer_error 7) 1%nat);
    reflexivity.
Defined.

Lemma C7_witness :
  StackWriter.writers
    (self (run wexec [WAdd (Some (buffer 1)); WWrite hello; WFlush; WAdd None]
               (mkState (StackWriter.mk sink [sink]) 0%nat []))) !! 0%nat
  = Some sink
  /\ MultiReader.readers
       (self (run rexec [RAdd (Some decoder); RAdd (Some picky); RRead hello]
                  (mkState (MultiReader.mk [source]) 0%nat []))) !! 0%nat
     = Some source.
Proof.
  destruct (C7_sequence_grows_until_closed
              sink [WAdd (Some (buffer 1)); WWrite hello; WFlush; WAdd None] WClose
              source [RAdd (Some decoder); RAdd (Some picky); RRead hello] RClose
              0%nat)
    as [Hw Hr].
  split; [apply Hw | apply Hr]; repeat constructor.
Defined.

Lemma C8_witness :
  StackWriter.AddWriter (Some (buffer 3)) (StackWriter.Close wstack).2
  = (Panics (index_out_of_range (-1) 0), (StackWriter.Close wstack).2)
  /\ MultiReader.AddReader (Some decoder) (MultiReader.Close rstack).2
     = (Panics (index_out_of_range (-1) 0), (MultiReader.Close rstack).2)
  /\ (exists e, (StackWriter.AddWriter (Some (buffer 3)) wstack).1 = Returns e)
  /\ (exists e, (MultiReader.AddReader (Some decoder) rstack).1 = Returns e).
Proof.
  destruct (C8_add_on_closed_stack_panics
              (StackWriter.Close wstack).2 (buffer 3)
              (MultiReader.Close rstack).2 decoder)
    as (Hw & Hr & _).
  destruct (C8_add_on_closed_stack_panics wstack (buffer 3) rstack decoder)
    as (_ & _ & Hw' & Hr').
  split; [apply Hw; reflexivity|].
  split; [apply Hr; reflexivity|].
  split; [apply Hw'; discriminate | apply Hr'; discriminate].
Defined.

Lemma C9_witness :
  StackWriter.Close (StackWriter.Close wstack).2
  = (Returns None, (StackWriter.Close wstack).2)
  /\ MultiReader.Close (MultiReader.Close rstack).2
     = (Returns None, (MultiReader.Close rstack).2).
Proof.
  destruct (C9_sweeps_on_closed_stack
              (StackWriter.Close wstack).2 (MultiReader.Close rstack).2)
    as [Hw Hr].
  split; [apply Hw; reflexivity | apply Hr; reflexivity].
Defined.

Lemma C10_witness :
  let st' := (StackWriter.Flush wstack).2 in
  StackWriter.Write hello st'
  = call (CallWrite (rw_Writer (buffer 2)) hello)
         (Writer_Write (rw_Writer (buffer 2)) hello) st'.
Proof.
  destruct (C10_flush_keeps_the_stack wstack hello) as (_ & _ & _ & H).
  apply (H (rw_Writer (buffer 2))). reflexivity.
Defined.
End Samples.

(** * Further properties of the stacks *)

Section SweepFacts.
Context {W : Type}.

Lemma run_caps_app {L} (cap : L -> option (err_method W)) (l1 l2 : list L) (h : W) :
  run_caps cap (l1 ++ l2) h
  = let r1 := run_caps cap l1 h in
    let r2 := run_caps cap l2 r1.2 in
    (r1.1 ++ r2.1, r2.2).
Proof.
  revert h. induction l1 as [|x l1 IH]; intros h; cbn.
  - now destruct (run_caps cap l2 h).
  - destruct (cap x) as [f|]; [|apply IH].
    destruct (f h) as [e h1]. rewrite IH. cbn.
    destruct (run_caps cap l1 h1) as [c1 h2]. cbn.
    now destruct (run_caps cap l2 h2).
Qed.

Lemma run_caps_no_implementer {L} (cap : L -> option (err_method W))
    (ls : list L) (h : W) :
  Forall (fun x => cap x = None) ls -> run_caps cap ls h = ([], h).
Proof.
  induction 1 as [|x ls Hx _ IH]; [reflexivity|].
  cbn. now rewrite Hx.
Qed.

Lemma first_error_None (es : list (option error)) :
  first_error es = None <-> Forall (eq None) es.
Proof.
  induction es as [|[e|] es IH]; cbn.
  - split; auto.
  - split; [discriminate|]. intros H. inversion H; discriminate.
  - rewrite IH. split; [auto|]. intros H. now inversion H.
Qed.

Lemma first_error_elem (es : list (option error)) (e : error) :
  first_error es = Some e -> Some e ∈ es.
Proof.
  induction es as [|[e'|] es IH]; cbn; [discriminate| |].
  - intros [= ->]. apply list_elem_of_here.
  - intros H. apply list_elem_of_further. auto.
Qed.
End SweepFacts.

Section StackExtras.
Context {W : Type}.

(** X1.  FlushAndClose is Flush followed by Close: the same calls on the
    layers, the same final stack, heap and log, and the returned error is
    the one of Flush when it is not nil, else the one of Close. *)
Theorem X1_flush_and_close_is_flush_then_close (st : StackWriter.St W) :
  exists ef ec sf sc,
    StackWriter.Flush st = (Returns ef, sf)
    /\ StackWriter.Close sf = (Returns ec, sc)
    /\ StackWriter.FlushAndClose st
       = (Returns (match ef with Some e => Some e | None => ec end), sc).
Proof.
  eexists _, _, _, _. split; [apply Flush_run_caps|].
  split; [apply WClose_run_caps|].
  rewrite FlushAndClose_run_caps. cbn.
  rewrite first_error_app, <- app_assoc.
  destruct (first_error _) as [e|]; cbn.
  - now destruct (first_error _).
  - now rewrite keep_first_None.
Qed.

(** X2.  A sweep returns nil exactly when every call it made on a layer
    returned nil, and a non-nil error it returns was returned by one of
    the layers it called. *)
Theorem X2_sweep_error_comes_from_a_layer
    (st : StackWriter.St W) (rst : MultiReader.St W) :
  (let r := run_caps Writer_Flusher
              (reverse (StackWriter.writers (self st))) (heap st) in
   ((StackWriter.Flush st).1 = Returns None <-> Forall (eq None) r.1.*2)
   /\ forall e, (StackWriter.Flush st).1 = Returns (Some e) ->
                exists w, (w, Some e) ∈ r.1)
  /\ (let r := run_caps Writer_Closer
                 (reverse (StackWriter.writers (self st))) (heap st) in
      ((StackWriter.Close st).1 = Returns None <-> Forall (eq None) r.1.*2)
      /\ forall e, (StackWriter.Close st).1 = Returns (Some e) ->
                   exists w, (w, Some e) ∈ r.1)
  /\ (let r := run_caps Reader_Closer
                 (reverse (MultiReader.readers (self rst))) (heap rst) in
      ((MultiReader.Close rst).1 = Returns None <-> Forall (eq None) r.1.*2)
      /\ forall e, (MultiReader.Close rst).1 = Returns (Some e) ->
                   exists x, (x, Some e) ∈ r.1).
Proof.
  assert (Hgen : forall {L} (calls : list (L * option error)),
             (Returns (first_error calls.*2) = Returns None
              <-> Forall (eq None) calls.*2)
             /\ forall e, Returns (first_error calls.*2) = Returns (Some e) ->
                          exists x, (x, Some e) ∈ calls).
  { intros L calls. split.
    - rewrite <- first_error_None. split; [now intros [= ->]|now intros ->].
    - intros e [= He]. apply first_error_elem in He.
      apply list_elem_of_fmap in He as ([x e'] & Heq & Hin).
      cbn in Heq. subst e'. eauto. }
  cbn zeta. rewrite Flush_run_caps, WClose_run_caps, RClose_run_caps. cbn.
  repeat split; try apply Hgen; apply (proj1 (Hgen _ _)).
Qed.

Lemma add_readers_given (rs : list (ResettableReader W)) :
  forall (st st' : MultiReader.St W) (prev : Reader W) (errs : list (option error)),
  last (MultiReader.readers (self st)) = Some prev ->
  for_each (fun r => MultiReader.AddReader (Some r)) rs st = (Returns errs, st') ->
  length errs = length rs
  /\ MultiReader.readers (self st')
     = MultiReader.readers (self st) ++ (rr_Reader <$> accepted rs errs)
  /\ log st' = log st ++ rresets_given prev rs errs.
Proof.
  induction rs as [|r rs IH]; intros st st' prev errs Hl Hrun.
  - injection Hrun as <- <-. cbn. now rewrite !app_nil_r.
  - rewrite for_each_cons, (AddReader_top _ _ _ Hl) in Hrun.
    destruct (rr_Reset r prev (heap st)) as [[e|] h1].
    + destruct (for_each _ rs _) as [[errs'|q] s2] eqn:Hrest; [|discriminate].
      injection Hrun as <- <-.
      destruct (IH (mkState (self st) h1 (log st ++ [CallRReset r prev]))
                   _ prev _ Hl Hrest) as (Hlen & Hrs & Hlog).
      cbn in *. rewrite Hlen, Hrs, Hlog, <- app_assoc. auto.
    + destruct (for_each _ rs _) as [[errs'|q] s2] eqn:Hrest; [|discriminate].
      injection Hrun as <- <-.
      destruct (IH (mkState (MultiReader.mk
                               (MultiReader.readers (self st) ++ [rr_Reader r]))
                            h1 (log st ++ [CallRReset r prev]))
                   _ (rr_Reader r) _ (last_snoc _ _) Hrest)
        as (Hlen & Hrs & Hlog).
      cbn in *. rewrite Hlen, Hrs, Hlog, <- !app_assoc. auto.
Qed.

(** X3.  Offering the layers [rs] in order to a fresh read stack, some
    resets failing: there is one returned error and one Reset call per
    layer, the stack holds the base followed by exactly the layers whose
    add returned nil, in order, and every Reset got the most recent
    accepted layer (the base when there is none): a rejected layer is
    never the source of a later one. *)
Theorem X3_rejected_layers_are_skipped
    (rb : Reader W) (rs : list (ResettableReader W)) (h : W)
    (errs : list (option error)) (st : MultiReader.St W) :
  for_each (fun r => MultiReader.AddReader (Some r)) rs
           (mkState (MultiReader.mk [rb]) h [])
  = (Returns errs, st) ->
  length errs = length rs
  /\ MultiReader.readers (self st) = rb :: (rr_Reader <$> accepted rs errs)
  /\ log st = rresets_given rb rs errs.
Proof.
  intros Hrun.
  exact (add_readers_given rs (mkState (MultiReader.mk [rb]) h []) st rb errs
           eq_refl Hrun).
Qed.

Lemma wrun_layers_added (ops : list (wop W)) :
  forall (st : StackWriter.St W) (top : Writer W),
  Forall (fun o => wcloses o = false) ops ->
  last (StackWriter.writers (self st)) = Some top ->
  StackWriter.writers (self (run wexec ops st))
  = StackWriter.writers (self st) ++ layers_added ops.
Proof.
  induction ops as [|o ops IH]; intros st top Hops Hl.
  - cbn. now rewrite app_nil_r.
  - inversion Hops as [|? ? Ho Hops']; subst. cbn [run].
    destruct (wexec_open o st top Hl) as (_ & _ & Hseq).
    destruct o as [[w|]|p| | |]; try discriminate.
    + rewrite (IH _ (rw_Writer w) Hops') by (rewrite Hseq; apply last_snoc).
      rewrite Hseq, <- app_assoc. reflexivity.
    + rewrite (IH _ top Hops') by now rewrite Hseq. now rewrite Hseq.
    + rewrite (IH _ top Hops') by now rewrite Hseq. now rewrite Hseq.
    + rewrite (IH _ top Hops') by now rewrite Hseq. now rewrite Hseq.
Qed.

(** X4.  Whatever calls other than Close and FlushAndClose a client makes
    on a fresh write stack, in any order, the stack holds the base
    followed by the non-nil layers passed to AddWriter, in call order:
    writes, flushes and adds of nil in between change nothing. *)
Theorem X4_layers_are_the_writers_added
    (b : Writer W) (ops : list (wop W)) (h : W) :
  Forall (fun o => wcloses o = false) ops ->
  StackWriter.writers
    (self (run wexec ops (mkState (StackWriter.mk b [b]) h [])))
  = b :: layers_added ops.
Proof.
  intros Hops.
  exact (wrun_layers_added ops (mkState (StackWriter.mk b [b]) h []) b
           Hops eq_refl).
Qed.

Lemma wexec_closed_inert (o : wop W) (st : StackWriter.St W) :
  StackWriter.writers (self st) = [] -> (wexec o st).2 = st.
Proof.
  intros Hc. destruct o as [[w|]|p| | |]; cbn [wexec]; rewrite void_eq.
  - now rewrite (AddWriter_closed _ _ Hc).
  - now rewrite AddWriter_nil.
  - now rewrite (Write_closed _ _ Hc).
  - rewrite Flush_run_caps. destruct st as [[b ws] h l]. cbn in Hc. subst ws.
    cbn. now rewrite app_nil_r.
  - rewrite WClose_run_caps. destruct st as [[b ws] h l]. cbn in Hc. subst ws.
    cbn. now rewrite app_nil_r.
  - rewrite FlushAndClose_run_caps. destruct st as [[b ws] h l]. cbn in Hc.
    subst ws. cbn. now rewrite app_nil_r.
Qed.

Lemma rexec_closed_inert (o : rop W) (st : MultiReader.St W) :
  MultiReader.readers (self st) = [] -> (rexec o st).2 = st.
Proof.
  intros Hc. destruct o as [[r|]|p|]; cbn [rexec]; rewrite void_eq.
  - now rewrite (AddReader_closed _ _ Hc).
  - now rewrite AddReader_nil.
  - now rewrite (Read_closed _ _ Hc).
  - rewrite RClose_run_caps. destruct st as [[rs] h l]. cbn in Hc. subst rs.
    cbn. now rewrite app_nil_r.
Qed.

(** X5.  A closed stack is inert: whatever the client calls on it, in any
    number and order, no layer is called and the stack, the heap and the
    log stay as they were. *)
Theorem X5_closed_stack_is_inert
    (st : StackWriter.St W) (wops : list (wop W))
    (rst : MultiReader.St W) (rops : list (rop W)) :
  (StackWriter.writers (self st) = [] -> run wexec wops st = st)
  /\ (MultiReader.readers (self rst) = [] -> run rexec rops rst = rst).
Proof.
  split.
  - induction wops as [|o ops IH]; intros Hc; [reflexivity|].
    cbn [run]. rewrite (wexec_closed_inert o st Hc). auto.
  - induction rops as [|o ops IH]; intros Hc; [reflexivity|].
    cbn [run]. rewrite (rexec_closed_inert o rst Hc). auto.
Qed.

(** X6.  In a stack none of whose layers implements the capability the
    sweep calls nothing: Flush returns nil and changes nothing, Close
    returns nil and only clears the layer sequence. *)
Theorem X6_sweep_without_implementers
    (st : StackWriter.St W) (rst : MultiReader.St W) :
  (Forall (fun w => Writer_Flusher w = None) (StackWriter.writers (self st)) ->
   StackWriter.Flush st = (Returns None, st))
  /\ (Forall (fun w => Writer_Closer w = None) (StackWriter.writers (self st)) ->
      StackWriter.Close st
      = (Returns None,
         mkState (StackWriter.mk (StackWriter.base (self st)) [])
                 (heap st) (log st)))
  /\ (Forall (fun r => Reader_Closer r = None) (MultiReader.readers (self rst)) ->
      MultiReader.Close rst
      = (Returns None, mkState (MultiReader.mk []) (heap rst) (log rst))).
Proof.
  repeat split; intros Hall.
  - rewrite Flush_run_caps, run_caps_no_implementer
      by now apply Forall_reverse.
    cbn. rewrite app_nil_r. now destruct st.
  - rewrite WClose_run_caps, run_caps_no_implementer
      by now apply Forall_reverse.
    cbn. now rewrite app_nil_r.
  - rewrite RClose_run_caps, run_caps_no_implementer
      by now apply Forall_reverse.
    cbn. now rewrite app_nil_r.
Qed.

(** X7.  On a stack reached from construction by calls none of which
    closes, a base that implements the capability is the last layer the
    sweep calls: Flush flushes it last, Close closes it last. *)
Theorem X7_base_is_swept_last
    (b : Writer W) (wops : list (wop W))
    (rb : Reader W) (rops : list (rop W)) (h : W) :
  (Forall (fun o => wcloses o = false) wops ->
   let st := run wexec wops (mkState (StackWriter.mk b [b]) h []) in
   (is_Some (Writer_Flusher b) ->
    last (log (StackWriter.Flush st).2) = Some (CallFlush b))
   /\ (is_Some (Writer_Closer b) ->
       last (log (StackWriter.Close st).2) = Some (CallWClose b)
       /\ last (log (StackWriter.FlushAndClose st).2) = Some (CallWClose b)))
  /\ (Forall (fun o => rcloses o = false) rops ->
      let st := run rexec rops (mkState (MultiReader.mk [rb]) h []) in
      is_Some (Reader_Closer rb) ->
      last (log (MultiReader.Close st).2) = Some (CallRClose rb)).
Proof.
  assert (Hlast : forall {L} (cap : L -> option (err_method W))
                    (ev : L -> Event W) (x : L) (ls : list L) (h0 : W)
                    (l0 : list (Event W)),
             is_Some (cap x) ->
             last (l0 ++ (ev <$> (run_caps cap (reverse (x :: ls)) h0).1.*1))
             = Some (ev x)).
  { intros L cap ev x ls h0 l0 [f Hf].
    rewrite reverse_cons, run_caps_app. cbn. rewrite Hf.
    destruct (f _) as [e h2]. cbn.
    rewrite !fmap_app, app_assoc. cbn. apply last_snoc. }
  split; intros Hops; cbn zeta.
  - destruct (wrun_open wops (mkState (StackWriter.mk b [b]) h []) b Hops eq_refl)
      as [Hhead _].
    set (st := run wexec wops _) in *.
    destruct (StackWriter.writers (self st)) as [|x ws] eqn:Hws; [discriminate|].
    injection Hhead as ->.
    split; intros Hcap; [|split].
    + rewrite Flush_run_caps. cbn. rewrite Hws. now apply Hlast.
    + rewrite WClose_run_caps. cbn. rewrite Hws. now apply Hlast.
    + rewrite FlushAndClose_run_caps. cbn. rewrite Hws, app_assoc.
      now apply Hlast.
  - pose proof (rrun_open rops (mkState (MultiReader.mk [rb]) h []) rb Hops eq_refl)
      as Hhead.
    set (st := run rexec rops _) in *.
    destruct (MultiReader.readers (self st)) as [|x rs] eqn:Hrs; [discriminate|].
    injection Hhead as ->. intros Hcap.
    rewrite RClose_run_caps. cbn. rewrite Hrs. now apply Hlast.
Qed.
End StackExtras.

(** * The adapters *)

Ltac unfold_f :=
  unfold mbind, mret, F_bind, F_ret, fbind, fret, fail,
    this, assign, invoke, deref in *.

Section AdapterFacts.
Context {W : Type}.

Lemma written_app (l1 l2 : list (Event W)) :
  written (l1 ++ l2) = written l1 ++ written l2.
Proof.
  induction l1 as [|ev l1 IH]; [reflexivity|].
  destruct ev; cbn; rewrite IH; try reflexivity. now rewrite app_assoc.
Qed.

Lemma slice_to_ok {S} (p : slice) (n : Z) (s : S) :
  0 <= n <= Z.of_nat (cap p) ->
  slice_to p n s = (Done (take (Z.to_nat n) (visible p ++ spare p)), s).
Proof.
  intros Hn. unfold slice_to.
  replace ((0 <=? n) && (n <=? Z.of_nat (cap p))) with true
    by (symmetry; apply andb_true_iff; split; lia).
  reflexivity.
Qed.

Lemma slice_to_beyond {S} (p : slice) (n : Z) (s : S) :
  Z.of_nat (cap p) < n ->
  slice_to p n s = (Fault (slice_bounds_out_of_range n (cap p)), s).
Proof.
  intros Hn. unfold slice_to.
  replace ((0 <=? n) && (n <=? Z.of_nat (cap p))) with false
    by (symmetry; apply andb_false_iff; right; apply Z.leb_gt; lia).
  reflexivity.
Qed.

Lemma each_cons {S A B} (f : A -> F S B) (a : A) (l : list A) (st : S) :
  each f (a :: l) st
  = match f a st with
    | (Done b, s1) =>
        match each f l s1 with
        | (Done bs, s2) => (Done (b :: bs), s2)
        | (Fault q, s2) => (Fault q, s2)
        end
    | (Fault q, s1) => (Fault q, s1)
    end.
Proof. reflexivity. Qed.

(** One successful [Read] of a ReaderToWriter: the receiver is unchanged
    and the target was handed exactly the bytes delivered. *)
Lemma tee_read_written (p : slice) (st st' : ReaderToWriter.St W)
    (res : list byte * Z * option error) :
  ReaderToWriter.Read p st = (Done res, st') ->
  self st' = self st
  /\ written (log st') = written (log st) ++ delivered p res.
Proof.
  unfold ReaderToWriter.Read. unfold_f. cbn.
  destruct (ReaderToWriter.src (self st)) as [s|]; [|discriminate]. cbn.
  destruct (Reader_Read s (visible p) (heap st)) as [[[p' n] err] h1]. cbn.
  destruct (0 <? n) eqn:Hn.
  - unfold slice_to.
    destruct ((0 <=? n) && (n <=? Z.of_nat (cap (mkSlice p' (spare p)))));
      [|discriminate]. cbn.
    destruct (ReaderToWriter.target (self st)) as [w|]; [|discriminate]. cbn.
    destruct (Writer_Write w _ h1) as [r h2]. cbn.
    intros [= <- <-]. cbn. split; [reflexivity|].
    rewrite !written_app. cbn. now rewrite !app_nil_r.
  - intros [= <- <-]. cbn. split; [reflexivity|].
    rewrite written_app. cbn. unfold delivered. cbn.
    apply Z.ltb_ge in Hn. replace (Z.to_nat n) with 0%nat by lia.
    now rewrite take_0.
Qed.


(** X9.  A ReaderToWriter is unusable until Reset: on
    [NewReaderToWriter(w)] Read faults on the nil source without calling
    anything.  Reset returns nil, calls nothing, keeps the target and
    replaces the source, so after [Reset(s)] a Read starts with
    [s.Read(p)], and a second Reset makes the first one forgotten. *)
Theorem X9_tee_needs_reset
    (w : option (Writer W)) (s1 s2 : option (Reader W))
    (h : W) (l : list (Event W)) (p : slice) :
  let st0 := mkState (ReaderToWriter.NewReaderToWriter w) h l in
  ReaderToWriter.Read p st0 = (Fault nil_pointer_dereference, st0)
  /\ ReaderToWriter.Reset s2 st0
     = (Done None, mkState (ReaderToWriter.mk s2 w) h l)
  /\ ReaderToWriter.Reset s2 (ReaderToWriter.Reset s1 st0).2
     = ReaderToWriter.Reset s2 st0
  /\ (ReaderToWriter.Read p (ReaderToWriter.Reset None st0).2
      = (Fault nil_pointer_dereference, st0))
  /\ forall s,
       s2 = Some s ->
       exists res st',
         ReaderToWriter.Read p (ReaderToWriter.Reset s2 st0).2 = (res, st')
         /\ log st' !! length l = Some (CallRead s (visible p))
         /\ self st' = ReaderToWriter.mk (Some s) w.
Proof.
  cbn zeta. repeat split.
  intros s ->. unfold ReaderToWriter.Read, ReaderToWriter.Reset. unfold_f. cbn.
  destruct (Reader_Read s (visible p) h) as [[[p' n] err] h1]. cbn.
  assert (Hlog : (l ++ [CallRead s (visible p)]) !! length l
                 = Some (CallRead s (visible p))).
  { rewrite lookup_app_r by lia. now rewrite Nat.sub_diag. }
  destruct (0 <? n); [|eauto].
  unfold slice_to.
  destruct ((0 <=? n) && (n <=? Z.of_nat (cap (mkSlice p' (spare p)))));
    cbn; [|eauto].
  destruct w as [w|]; cbn; [|eauto].
  destruct (Writer_Write w _ h1) as [r h2]. cbn.
  eexists _, _. split; [reflexivity|]. split; [|reflexivity].
  cbn. rewrite lookup_app_l by (rewrite length_app; cbn; lia). exact Hlog.
Qed.


Lemma first_error_snoc_None (es : list (option error)) :
  first_error (es ++ [None]) = first_error es.
Proof. rewrite first_error_app. cbn. now destruct (first_error es). Qed.

(** The layer on top is the same above [s] and above its passthrough. *)
Lemma top_over_passthrough (s : Reader W) (ls : list (Reader W)) :
  (ls = [] /\ last (s :: ls) = Some s
   /\ last (PassthroughReader.iface s :: ls) = Some (PassthroughReader.iface s))
  \/ exists t, last (s :: ls) = Some t
               /\ last (PassthroughReader.iface s :: ls) = Some t.
Proof.
  destruct (last ls) as [t|] eqn:Hl.
  - right. exists t. rewrite !last_cons, Hl. auto.
  - left. apply last_None in Hl. subst ls. auto.
Qed.

Lemma Read_over_passthrough (s : Reader W) (bare wrapped : MultiReader.St W)
    (p : list byte) :
  over_passthrough s bare wrapped ->
  (MultiReader.Read p wrapped).1 = (MultiReader.Read p bare).1
  /\ over_passthrough s (MultiReader.Read p bare).2 (MultiReader.Read p wrapped).2.
Proof.
  intros [Hh [[Hb Hw] | (ls & Hb & Hw)]].
  - rewrite (Read_closed _ _ Hb), (Read_closed _ _ Hw). cbn.
    split; [reflexivity|]. split; auto.
  - destruct (top_over_passthrough s ls) as [(-> & Tb & Tw) | (t & Tb & Tw)].
    + rewrite (Read_top bare p s) by now rewrite Hb.
      rewrite (Read_top wrapped p (PassthroughReader.iface s)) by now rewrite Hw.
      unfold call. cbn. rewrite Hh.
      destruct (Reader_Read s p (heap bare)) as [res h1]. cbn.
      split; [reflexivity|]. split; [reflexivity|]. right. exists []. auto.
    + rewrite (Read_top bare p t) by now rewrite Hb.
      rewrite (Read_top wrapped p t) by now rewrite Hw.
      unfold call. rewrite Hh.
      destruct (Reader_Read t p (heap bare)) as [res h1]. cbn.
      split; [reflexivity|]. split; [reflexivity|]. right. exists ls. auto.
Qed.

Lemma AddReader_over_passthrough (s : Reader W)
    (bare wrapped : MultiReader.St W) (r : option (ResettableReader W)) :
  over_passthrough s bare wrapped ->
  reset_blind s (RAdd r) ->
  (MultiReader.AddReader r wrapped).1 = (MultiReader.AddReader r bare).1
  /\ over_passthrough s (MultiReader.AddReader r bare).2
                        (MultiReader.AddReader r wrapped).2.
Proof.
  intros Hrel Hblind. destruct r as [r|]; [|rewrite !AddReader_nil; auto].
  cbn in Hblind. destruct Hrel as [Hh [[Hb Hw] | (ls & Hb & Hw)]].
  - rewrite (AddReader_closed _ _ Hb), (AddReader_closed _ _ Hw). cbn.
    split; [reflexivity|]. split; auto.
  - destruct (top_over_passthrough s ls) as [(-> & Tb & Tw) | (t & Tb & Tw)].
    + rewrite (AddReader_top bare r s) by now rewrite Hb.
      rewrite (AddReader_top wrapped r (PassthroughReader.iface s))
        by now rewrite Hw.
      rewrite Hblind, Hh, Hb, Hw.
      destruct (rr_Reset r s (heap bare)) as [[e|] h1]; cbn.
      * split; [reflexivity|]. split; [reflexivity|].
        right. exists []. auto.
      * split; [reflexivity|]. split; [reflexivity|].
        right. exists [rr_Reader r]. auto.
    + rewrite (AddReader_top bare r t) by now rewrite Hb.
      rewrite (AddReader_top wrapped r t) by now rewrite Hw.
      rewrite Hh, Hb, Hw.
      destruct (rr_Reset r t (heap bare)) as [[e|] h1]; cbn.
      * split; [reflexivity|]. split; [reflexivity|].
        right. exists ls. auto.
      * split; [reflexivity|]. split; [reflexivity|].
        right. exists (ls ++ [rr_Reader r]). auto.
Qed.

Lemma Close_over_passthrough (s : Reader W) (bare wrapped : MultiReader.St W) :
  over_passthrough s bare wrapped ->
  (MultiReader.Close wrapped).1 = (MultiReader.Close bare).1
  /\ over_passthrough s (MultiReader.Close bare).2 (MultiReader.Close wrapped).2.
Proof.
  intros [Hh [[Hb Hw] | (ls & Hb & Hw)]]; rewrite !RClose_run_caps; cbn;
    rewrite Hb, Hw, Hh.
  - cbn. split; [reflexivity|]. split; auto.
  - rewrite !reverse_cons, !run_caps_app. cbn.
    destruct (run_caps Reader_Closer (reverse ls) (heap bare)) as [calls h1].
    cbn. destruct (Reader_Closer s) as [c|]; cbn.
    + destruct (c h1) as [e h2]. cbn. rewrite !fmap_app. cbn.
      split; [reflexivity|]. split; auto.
    + rewrite !fmap_app. cbn. rewrite first_error_snoc_None, app_nil_r.
      split; [reflexivity|]. split; auto.
Qed.

Lemma rexec_over_passthrough (s : Reader W) (bare wrapped : MultiReader.St W)
    (o : rop W) :
  over_passthrough s bare wrapped ->
  reset_blind s o ->
  over_passthrough s (rexec o bare).2 (rexec o wrapped).2.
Proof.
  intros Hrel Hblind. destruct o as [r|p|]; cbn [rexec]; rewrite !void_eq.
  - destruct (AddReader_over_passthrough s bare wrapped r Hrel Hblind) as [_ H].
    destruct (MultiReader.AddReader r bare) as [[?|?] ?],
             (MultiReader.AddReader r wrapped) as [[?|?] ?]; exact H.
  - destruct (Read_over_passthrough s bare wrapped p Hrel) as [_ H].
    destruct (MultiReader.Read p bare) as [[?|?] ?],
             (MultiReader.Read p wrapped) as [[?|?] ?]; exact H.
  - destruct (Close_over_passthrough s bare wrapped Hrel) as [_ H].
    destruct (MultiReader.Close bare) as [[?|?] ?],
             (MultiReader.Close wrapped) as [[?|?] ?]; exact H.
Qed.

Lemma run_over_passthrough (s : Reader W) (ops : list (rop W)) :
  forall bare wrapped : MultiReader.St W,
  over_passthrough s bare wrapped ->
  Forall (reset_blind s) ops ->
  over_passthrough s (run rexec ops bare) (run rexec ops wrapped).
Proof.
  induction ops as [|o ops IH]; intros bare wrapped Hrel Hops; [exact Hrel|].
  inversion Hops as [|? ? Ho Hops']; subst. cbn [run].
  apply IH; [|exact Hops']. now apply rexec_over_passthrough.
Qed.

(** X11.  [NewPasstroughReader(s)] with a non-nil [s] is transparent:
    its Read is [s.Read], its Close is [s.Close] (nil when [s] has no
    Close), and these are the methods of the interface value holding it.
    For a MultiReader: take one stack built on [s] and one built on the
    passthrough, and make the same client calls on both, calls of any
    kind and number, where every layer attached resets alike on [s] and
    on the passthrough.  Then the two stacks have the same layers above
    the base and the same heap, and any further Read, Close or AddReader
    (of a layer that resets alike) returns the same on both and leaves
    the same heap.  Reset is the one place where a layer sees the
    wrapper, which always has Close. *)
Theorem X11_passthrough_base_is_transparent
    (s : Reader W) (h : W) (l : list (Event W)) (p : list byte)
    (ops : list (rop W)) (r : option (ResettableReader W)) :
  let pr := mkState (PassthroughReader.NewPasstroughReader (Some s)) h l in
  let i := PassthroughReader.iface s in
  (PassthroughReader.Read p pr
   = (Done (Reader_Read s p h).1,
      mkState (self pr) (Reader_Read s p h).2 (l ++ [CallRead s p]))
   /\ Reader_Read i = Reader_Read s
   /\ (exists close,
         Reader_Closer i = Some close
         /\ (PassthroughReader.Close pr).1 = Done (close h).1
         /\ heap (PassthroughReader.Close pr).2 = (close h).2)
   /\ MultiReader.NewReader (Some i) = (Some (MultiReader.mk [i]), None))
  /\ (Forall (reset_blind s) ops ->
      let bare := run rexec ops (mkState (MultiReader.mk [s]) h l) in
      let wrapped := run rexec ops (mkState (MultiReader.mk [i]) h l) in
      over_passthrough s bare wrapped
      /\ (MultiReader.Read p wrapped).1 = (MultiReader.Read p bare).1
      /\ heap (MultiReader.Read p wrapped).2 = heap (MultiReader.Read p bare).2
      /\ (MultiReader.Close wrapped).1 = (MultiReader.Close bare).1
      /\ heap (MultiReader.Close wrapped).2 = heap (MultiReader.Close bare).2
      /\ (reset_blind s (RAdd r) ->
          (MultiReader.AddReader r wrapped).1 = (MultiReader.AddReader r bare).1
          /\ heap (MultiReader.AddReader r wrapped).2
             = heap (MultiReader.AddReader r bare).2)).
Proof.
  cbn zeta. split; [split; [|split; [|split]]|].
  - unfold PassthroughReader.Read. unfold_f. cbn.
    now destruct (Reader_Read s p h).
  - reflexivity.
  - eexists. split; [reflexivity|].
    unfold PassthroughReader.Close. unfold_f. cbn.
    destruct (Reader_Closer s) as [c|]; cbn; [|auto].
    now destruct (c h).
  - reflexivity.
  - intros Hops.
    assert (Hrel : over_passthrough s
                     (run rexec ops (mkState (MultiReader.mk [s]) h l))
                     (run rexec ops
                        (mkState (MultiReader.mk [PassthroughReader.iface s]) h l))).
    { apply run_over_passthrough; [|exact Hops].
      split; [reflexivity|]. right. exists []. auto. }
    destruct (Read_over_passthrough s _ _ p Hrel) as [HR [HRh _]].
    destruct (Close_over_passthrough s _ _ Hrel) as [HC [HCh _]].
    repeat split; try assumption; try apply Hrel.
    + now destruct (AddReader_over_passthrough s _ _ r Hrel).
    + now destruct (AddReader_over_passthrough s _ _ r Hrel) as [_ [? _]].
Qed.

(** X12.  Close of an adapter never faults, even on nil fields, and
    leaves the receiver as it was.  PassthroughReader.Close on a nil
    source returns nil although Read faults there.
    ReaderToWriter.Close never calls the source: it calls nothing, or
    only Close on a target that implements it, and returns nil on a nil
    target. *)
Theorem X12_adapter_close_never_faults
    (pr : PassthroughReader.St W) (tw : ReaderToWriter.St W) (p : list byte) :
  (exists e st', PassthroughReader.Close pr = (Done e, st')
                 /\ self st' = self pr)
  /\ (PassthroughReader.src (self pr) = None ->
      PassthroughReader.Close pr = (Done None, pr)
      /\ PassthroughReader.Read p pr = (Fault nil_pointer_dereference, pr))
  /\ (exists e st',
        ReaderToWriter.Close tw = (Done e, st')
        /\ self st' = self tw
        /\ (log st' = log tw /\ heap st' = heap tw /\ e = None
            \/ exists w close,
                 ReaderToWriter.target (self tw) = Some w
                 /\ Writer_Closer w = Some close
                 /\ log st' = log tw ++ [CallWClose w]
                 /\ (e, heap st') = close (heap tw)))
  /\ (ReaderToWriter.target (self tw) = None ->
      ReaderToWriter.Close tw = (Done None, tw)).
Proof.
  split; [|split; [|split]].
  - unfold PassthroughReader.Close. unfold_f. cbn.
    destruct (PassthroughReader.src (self pr)) as [s|]; [|eauto].
    destruct (Reader_Closer s) as [c|]; [|eauto].
    cbn. destruct (c (heap pr)). eauto.
  - intros Hs. unfold PassthroughReader.Close, PassthroughReader.Read.
    unfold_f. cbn. rewrite Hs. auto.
  - unfold ReaderToWriter.Close. unfold_f. cbn.
    destruct (ReaderToWriter.target (self tw)) as [w|]; [|eauto 10].
    destruct (Writer_Closer w) as [c|] eqn:Hc; [|eauto 10].
    cbn. destruct (c (heap tw)) as [e h1] eqn:Hch.
    eexists _, _. split; [reflexivity|]. split; [reflexivity|].
    right. exists w, c. cbn. auto.
  - intros Ht. unfold ReaderToWriter.Close. unfold_f. cbn. now rewrite Ht.
Qed.
End AdapterFacts.

(** ** The further properties on the sample layers *)

Section Samples2.
Import Sample Sample2.

(** The tee on a failing target: the read still succeeds. *)
Example tee_ignores_write_errors :
  ReaderToWriter.Read tight tee
  = (Done ([Byte.x00; Byte.x00], 2, None),
     mkState (self tee) 2%nat
             [CallRead zeros hello; CallWrite broken [Byte.x00; Byte.x00]]).
Proof. reflexivity. Qed.

(** A source that reports five bytes for a buffer of length two: with
    capacity six the read returns and the target is handed five bytes,
    three of them from the spare capacity; with capacity two [p[:5]]
    panics after the read. *)
Example tee_reslices_up_to_capacity :
  ReaderToWriter.Read roomy greedy_tee
  = (Done ([Byte.x01; Byte.x01], 5, None),
     mkState (self greedy_tee) 2%nat
             [CallRead greedy hello;
              CallWrite broken
                [Byte.x01; Byte.x01; Byte.x07; Byte.x07; Byte.x07]])
  /\ ReaderToWriter.Read tight greedy_tee
     = (Fault (slice_bounds_out_of_range 5 2),
        mkState (self greedy_tee) 1%nat [CallRead greedy hello]).
Proof. split; reflexivity. Qed.

(** A layer whose Reset looks at the methods of its source tells the
    passthrough from the source under it. *)
Example reset_sees_the_passthrough :
  MultiReader.AddReader (Some owner) (mkState (MultiReader.mk [source]) 0%nat [])
  = (Returns (Some (layer_error 9)),
     mkState (MultiReader.mk [source]) 1%nat [CallRReset owner source])
  /\ MultiReader.AddReader (Some owner)
       (mkState (MultiReader.mk [PassthroughReader.iface source]) 0%nat [])
     = (Returns None,
        mkState (MultiReader.mk [PassthroughReader.iface source; rr_Reader owner])
                1%nat [CallRReset owner (PassthroughReader.iface source)]).
Proof. split; reflexivity. Qed.

Lemma X2_witness :
  exists w,
    (w, Some (layer_error 2))
    ∈ (run_caps Writer_Flusher (reverse (StackWriter.writers (self wstack)))
                (heap wstack)).1.
Proof.
  destruct (X2_sweep_error_comes_from_a_layer wstack rstack) as [[_ H] _].
  apply H. reflexivity.
Defined.

Lemma X3_witness :
  let st := mkState (MultiReader.mk [source; rr_Reader decoder]) 2%nat
                    [CallRReset picky source; CallRReset decoder source] in
  length [Some (layer_error 7); None] = 2%nat
  /\ MultiReader.readers (self st)
     = source :: (rr_Reader <$> accepted [picky; decoder]
                                  [Some (layer_error 7); None])
  /\ log st = rresets_given source [picky; decoder] [Some (layer_error 7); None].
Proof.
  apply (X3_rejected_layers_are_skipped source [picky; decoder] 0%nat).
  reflexivity.
Defined.

Lemma X4_witness :
  StackWriter.writers
    (self (run wexec [WAdd (Some (buffer 1)); WWrite hello; WAdd None; WFlush;
                      WAdd (Some (buffer 2))]
               (mkState (StackWriter.mk sink [sink]) 0%nat [])))
  = [sink; rw_Writer (buffer 1); rw_Writer (buffer 2)].
Proof.
  apply (X4_layers_are_the_writers_added sink
           [WAdd (Some (buffer 1)); WWrite hello; WAdd None; WFlush;
            WAdd (Some (buffer 2))] 0%nat).
  repeat constructor.
Defined.

Lemma X5_witness :
  let closed := (StackWriter.Close wstack).2 in
  let rclosed := (MultiReader.Close rstack).2 in
  run wexec [WWrite hello; WAdd (Some (buffer 1)); WFlush; WFlushAndClose] closed
  = closed
  /\ run rexec [RRead hello; RAdd (Some decoder); RClose] rclosed = rclosed.
Proof.
  destruct (X5_closed_stack_is_inert
              (StackWriter.Close wstack).2
              [WWrite hello; WAdd (Some (buffer 1)); WFlush; WFlushAndClose]
              (MultiReader.Close rstack).2
              [RRead hello; RAdd (Some decoder); RClose])
    as [Hw Hr].
  split; [apply Hw; reflexivity | apply Hr; reflexivity].
Defined.

Lemma X6_witness :
  let st := mkState (StackWriter.mk sink [sink]) 0%nat [] in
  let rst := mkState (MultiReader.mk [source]) 0%nat [] in
  StackWriter.Flush st = (Returns None, st)
  /\ StackWriter.Close st
     = (Returns None, mkState (StackWriter.mk sink []) 0%nat [])
  /\ MultiReader.Close rst
     = (Returns None, mkState (MultiReader.mk []) 0%nat []).
Proof.
  destruct (X6_sweep_without_implementers
              (mkState (StackWriter.mk sink [sink]) 0%nat [])
              (mkState (MultiReader.mk [source]) 0%nat []))
    as (Hf & Hc & Hr).
  split; [apply Hf; repeat constructor|].
  split; [apply Hc; repeat constructor | apply Hr; repeat constructor].
Defined.

Lemma X7_witness :
  let b := rw_Writer (buffer 0) in
  let st := run wexec [WAdd (Some (buffer 1)); WWrite hello]
                (mkState (StackWriter.mk b [b]) 0%nat []) in
  let rb := rr_Reader decoder in
  let rst := run rexec [RAdd (Some decoder); RRead hello]
                 (mkState (MultiReader.mk [rb]) 0%nat []) in
  last (log (StackWriter.Flush st).2) = Some (CallFlush b)
  /\ last (log (StackWriter.Close st).2) = Some (CallWClose b)
  /\ last (log (MultiReader.Close rst).2) = Some (CallRClose rb).
Proof.
  destruct (X7_base_is_swept_last
              (rw_Writer (buffer 0)) [WAdd (Some (buffer 1)); WWrite hello]
              (rr_Reader decoder) [RAdd (Some decoder); RRead hello] 0%nat)
    as [Hw Hr].
  destruct Hw as [Hf Hc]; [repeat constructor|].
  split; [apply Hf; cbn; eauto|].
  split; [apply Hc; cbn; eauto|].
  apply Hr; [repeat constructor | cbn; eauto].
Defined.


Lemma X9_witness :
  exists res st',
    ReaderToWriter.Read tight
      (ReaderToWriter.Reset (Some zeros)
         (mkState (ReaderToWriter.NewReaderToWriter (Some broken)) 0%nat [])).2
    = (res, st')
    /\ log st' !! 0%nat = Some (CallRead zeros hello)
    /\ self st' = ReaderToWriter.mk (Some zeros) (Some broken).
Proof.
  destruct (X9_tee_needs_reset (Some broken) None (Some zeros) 0%nat [] tight)
    as (_ & _ & _ & _ & H).
  apply (H zeros). reflexivity.
Defined.


Lemma X11_witness :
  let ops := [RAdd (Some decoder); RRead hello; RAdd (Some picky);
              RAdd (Some framer)] in
  let bare := run rexec ops (mkState (MultiReader.mk [source]) 0%nat []) in
  let wrapped :=
    run rexec ops
        (mkState (MultiReader.mk [PassthroughReader.iface source]) 0%nat []) in
  (MultiReader.Read hello wrapped).1 = (MultiReader.Read hello bare).1
  /\ (MultiReader.Close wrapped).1 = (MultiReader.Close bare).1
  /\ heap (MultiReader.Close wrapped).2 = heap (MultiReader.Close bare).2
  /\ (MultiReader.AddReader (Some decoder) wrapped).1
     = (MultiReader.AddReader (Some decoder) bare).1.
Proof.
  destruct (X11_passthrough_base_is_transparent
              source 0%nat [] hello
              [RAdd (Some decoder); RRead hello; RAdd (Some picky);
               RAdd (Some framer)]
              (Some decoder))
    as [_ H].
  destruct H as (_ & HR & _ & HC & HCh & HA); [repeat constructor|].
  split; [exact HR|]. split; [exact HC|]. split; [exact HCh|].
  apply HA. reflexivity.
Defined.

Lemma X12_witness :
  let pr := mkState (PassthroughReader.NewPasstroughReader None) 0%nat [] in
  let tw := mkState (ReaderToWriter.NewReaderToWriter None) 0%nat [] in
  (PassthroughReader.Close pr = (Done None, pr)
   /\ PassthroughReader.Read hello pr = (Fault nil_pointer_dereference, pr))
  /\ ReaderToWriter.Close tw = (Done None, tw).
Proof.
  destruct (X12_adapter_close_never_faults
              (mkState (PassthroughReader.NewPasstroughReader None) 0%nat [])
              (mkState (ReaderToWriter.NewReaderToWriter None) 0%nat [])
              hello)
    as (_ & Hp & _ & Ht).
  split; [apply Hp; reflexivity | apply Ht; reflexivity].
Defined.
End Samples2.
